(** * Areas of a generated town: the [Area] entity and its directional split

    A shallow embedding of [src/town_generator/area.py].  Python objects live
    in an explicit store ([World]); Python floats are IEEE binary64 numbers
    ([PrimFloat.float]); the geometry library (shapely) and the transcendental
    functions of numpy are an interface the development is parametric in. *)

From Stdlib Require Import ZArith Floats Sorted.
From stdpp Require Import base list option pretty.

Local Open Scope Z_scope.

(** ** Category: the [IntEnum] of land types *)

Inductive Category :=
| UNDEFINED | LAND | FIELD | FOREST | RIVER | LAKE | SEA | PARK | GARDEN
| HOUSE | MANSION | MARKET | TOWNHALL | UNIVERSITY | FARM
| CHURCH | CATHEDRAL | MONASTRY
| FORT | CASTLE | WALL | DOOR
| STREET | BRIDGE | ROAD
| COMPOSITE.

Definition Category_value (c : Category) : Z :=
  match c with
  | UNDEFINED => 0 | LAND => 1 | FIELD => 2 | FOREST => 3 | RIVER => 4
  | LAKE => 5 | SEA => 6 | PARK => 7 | GARDEN => 8
  | HOUSE => 10 | MANSION => 11 | MARKET => 12 | TOWNHALL => 13
  | UNIVERSITY => 14 | FARM => 15
  | CHURCH => 20 | CATHEDRAL => 21 | MONASTRY => 22
  | FORT => 31 | CASTLE => 32 | WALL => 33 | DOOR => 34
  | STREET => 50 | BRIDGE => 51 | ROAD => 52
  | COMPOSITE => 90
  end.

(** ** Python exceptions met on the paths of this module *)

Inductive exn :=
| AssertionError | AttributeError | IndexError | TypeError | ValueError.

(** ** Floats and planar vectors (numpy arrays of two floats) *)

Definition point : Type := float * float.

(** Python's [a > b] on floats. *)
Definition gtb (a b : float) : bool := PrimFloat.ltb b a.

Definition vadd (a b : point) : point := (a.1 + b.1, a.2 + b.2)%float.
Definition vsub (a b : point) : point := (a.1 - b.1, a.2 - b.2)%float.
Definition vscale (k : float) (a : point) : point := (k * a.1, k * a.2)%float.
Definition vdiv (a : point) (k : float) : point := (a.1 / k, a.2 / k)%float.

(** [np.sqrt(np.sum(np.square(v)))] *)
Definition norm (v : point) : float :=
  PrimFloat.sqrt (v.1 * v.1 + v.2 * v.2)%float.

(** ** The external collaborators

    Everything [area.py] asks of shapely and of numpy's transcendental
    functions.  A [BaseGeometry] is whatever an intersection returns (a
    point, a multi-point, an empty collection, ...). *)

Class Lib := {
  Polygon : Type;
  BaseGeometry : Type;
  (** [Polygon(coords)] *)
  Polygon_of_coords : list point -> Polygon;
  (** [p.exterior.coords] *)
  exterior_coords : Polygon -> list point;
  (** [p.exterior.is_ccw] *)
  is_ccw : Polygon -> bool;
  (** [p.minimum_rotated_rectangle] *)
  minimum_rotated_rectangle : Polygon -> Polygon;
  (** [np.array(p.centroid)] *)
  centroid : Polygon -> point;
  (** [p.boundary.coords] *)
  boundary_coords : Polygon -> list point;
  (** [p.area] *)
  area : Polygon -> float;
  (** [LineString([a, b]).intersection(p.boundary)] *)
  intersection_boundary : point * point -> Polygon -> BaseGeometry;
  (** [list(g)]: iteration over a geometry, which may raise *)
  py_list : BaseGeometry -> exn + list BaseGeometry;
  (** [LineString((a, b)).distance(g)] *)
  LineString_distance : point * point -> BaseGeometry -> float;
  (** [g.distance(p)] *)
  distance : BaseGeometry -> Polygon -> float;
  (** [ops.split(p, LineString([a, b]))], as the sequence of its parts *)
  ops_split : Polygon -> point * point -> list Polygon;
  (** [np.deg2rad], [np.cos], [np.sin] *)
  deg2rad : float -> float;
  cos : float -> float;
  sin : float -> float
}.

(** ** The store *)

(** References to [Area] instances and to Python list objects. *)
Definition ref := nat.
Definition lref := nat.

Section Entity.
Context `{L : Lib}.

(** The instance attributes set by [__init__]. *)
Record Area := mkArea {
  _polygon : Polygon;
  _category : Category;
  _sub_areas : lref;
  _id : Z
}.

(** The class attributes [Area._last_id] and [Area.members], and the two
    heaps.  A reference is an index; a new object goes to the end of its
    heap, so its reference is the heap's length at allocation.  Nothing is
    ever collected: [Area.members] keeps every instance alive, so [__del__]
    does not run. *)
Record World := mkWorld {
  _last_id : Z;
  members : list ref;
  areas : list Area;
  lists : list (list ref)
}.

(** The state of the module once the class body has run. *)
Definition initial_world : World :=
  {| _last_id := 0; members := []; areas := []; lists := [] |}.

(** ** A monad of store-passing computations that may raise or not return *)

Inductive outcome (A : Type) :=
| Done (a : A) (w : World)
| Raised (e : exn) (w : World)
| OutOfFuel
| Stuck.
Arguments Done {A} a w.
Arguments Raised {A} e w.
Arguments OutOfFuel {A}.
Arguments Stuck {A}.

Definition M (A : Type) : Type := World -> outcome A.

#[global] Instance M_ret : MRet M := fun A a w => Done a w.
#[global] Instance M_bind : MBind M := fun A B f m w =>
  match m w with
  | Done a w' => f a w'
  | Raised e w' => Raised e w'
  | OutOfFuel => OutOfFuel
  | Stuck => Stuck
  end.

Definition raise {A} (e : exn) : M A := fun w => Raised e w.

(** The world an outcome leaves behind, when there is one. *)
Definition final_world {A} (o : outcome A) : option World :=
  match o with
  | Done _ w | Raised _ w => Some w
  | OutOfFuel | Stuck => None
  end.

(** Dereferencing; an invalid reference has no Python counterpart. *)
Definition load (r : ref) : M Area := fun w =>
  match areas w !! r with Some a => Done a w | None => Stuck end.

Definition load_list (l : lref) : M (list ref) := fun w =>
  match lists w !! l with Some xs => Done xs w | None => Stuck end.

(** A list display [[x1, ..., xn]] creates a new list object. *)
Definition new_list (xs : list ref) : M lref := fun w =>
  Done (length (lists w))
       {| _last_id := _last_id w; members := members w; areas := areas w;
          lists := lists w ++ [xs] |}.

(** [seq[i]] for a non-negative constant [i]. *)
Definition index {A} (l : list A) (i : nat) : M A :=
  match l !! i with Some x => mret x | None => raise IndexError end.

(** ** [Area.get_id] *)

Definition get_id : M Z := fun w =>
  let w' := {| _last_id := _last_id w + 1; members := members w;
               areas := areas w; lists := lists w |} in
  Done (_last_id w') w'.

(** ** [Area(polygon, category, sub_areas)]

    The constructor call: a new instance is allocated and [__init__] runs on
    it.  No statement of [__init__] can raise, so the instance is stored once
    its four attributes are known; [Area.members.append(self)] comes last. *)

Definition store_area (a : Area) : M ref := fun w =>
  Done (length (areas w))
       {| _last_id := _last_id w; members := members w;
          areas := areas w ++ [a]; lists := lists w |}.

Definition members_append (self : ref) : M unit := fun w =>
  Done tt {| _last_id := _last_id w; members := members w ++ [self];
             areas := areas w; lists := lists w |}.

Definition __init__ (polygon : Polygon) (category : Category)
    (sub_areas : option lref) : M ref :=
  sub_areas ← match sub_areas with
              | None => new_list []
              | Some l => mret l
              end;
  i ← get_id;
  self ← store_area {| _polygon := polygon; _category := category;
                       _sub_areas := sub_areas; _id := i |};
  members_append self;;
  mret self.

(** ** The read-only properties [identity], [polygon], [category] *)

Definition identity (self : ref) : M Z := a ← load self; mret (_id a).
Definition polygon (self : ref) : M Polygon := a ← load self; mret (_polygon a).
Definition category (self : ref) : M Category := a ← load self; mret (_category a).

(** The class declares [polygon] with [@property] alone: the descriptor has a
    getter and no setter. *)
Definition polygon_fset : option (ref -> Polygon -> M unit) := None.

(** [self.polygon = value].  [polygon] is a data descriptor of the class, so
    the assignment goes to its [__set__], which raises when there is no
    setter. *)
Definition set_polygon (self : ref) (value : Polygon) : M unit :=
  match polygon_fset with
  | Some f => f self value
  | None => raise AttributeError
  end.

(** [self._sub_areas = l] *)
Definition set__sub_areas (self : ref) (l : lref) : M unit := fun w =>
  match areas w !! self with
  | Some a =>
      Done tt {| _last_id := _last_id w; members := members w;
                 areas := <[self := {| _polygon := _polygon a;
                                       _category := _category a;
                                       _sub_areas := l;
                                       _id := _id a |}]> (areas w);
                 lists := lists w |}
  | None => Stuck
  end.

(** ** [Area.components] *)

Definition components (self : ref) : M lref :=
  a ← load self;
  xs ← load_list (_sub_areas a);
  if (0 <? length xs)%nat then mret (_sub_areas a) else new_list [self].

End Entity.

Arguments Done {L A} a w.
Arguments Raised {L A} e w.
Arguments OutOfFuel {L A}.
Arguments Stuck {L A}.

(** ** [Area.split] *)

Section Split.
Context `{L : Lib}.

(** The assert statement of line 124. *)
Definition assert_ (b : bool) : M unit :=
  if b then mret tt else raise AssertionError.

(** Lines 136-141: the crossing of the ray with the boundary.  When the
    crossing can be listed, its last item is kept; a [ValueError] from the
    listing is swallowed and the crossing is kept as it is. *)
Definition hit_point (path : point * point) (p : Polygon) : M BaseGeometry :=
  let pt_intersection := intersection_boundary path p in
  match py_list pt_intersection with
  | inr l =>
      match list.last l with
      | Some x => mret x
      | None => raise IndexError
      end
  | inl ValueError => mret pt_intersection
  | inl e => raise e
  end.

(** Lines 143-147: the [for] loop over consecutive boundary vertices.  It
    stops at the first edge within [1E-6] of the hit point; the loop
    variables keep the last pair when no edge is that close, and their
    initial [None] when there is no pair at all. *)
Fixpoint find_edge (pairs : list (point * point)) (pt_intersection : BaseGeometry)
    (cur : option (point * point)) : option (point * point) :=
  match pairs with
  | [] => cur
  | e :: rest =>
      if PrimFloat.ltb (LineString_distance e pt_intersection)
                       0x1.0c6f7a0b5ed8dp-20%float
      then Some e
      else find_edge rest pt_intersection (Some e)
  end.

(** [zip(pts[:-1], pts[1:])] *)
Definition edges (pts : list point) : list (point * point) :=
  zip (removelast pts) (tail pts).

(** Lines 160-163: the cutting line at offset [width] from the edge. *)
Definition cut_line (pt1 pt2 directory orth : point) (diameter width : float)
    : point * point :=
  (vsub (vadd pt1 (vscale width orth)) (vscale diameter directory),
   vadd (vadd pt2 (vscale width orth)) (vscale diameter directory)).

(** Lines 169-173: which piece comes first. *)
Definition order_pieces (pt_intersection : BaseGeometry) (res : list Polygon)
    : M (list Polygon) :=
  r0 ← index res 0;
  r1 ← index res 1;
  if gtb (distance pt_intersection r0) (distance pt_intersection r1)
  then mret [r1; r0]
  else mret res.

(** Line 159: the condition of the [while] loop. *)
Definition off_target (house_area : float) (r0 : Polygon) : bool :=
  gtb (PrimFloat.abs (area r0 - house_area)) 1.

(** Lines 159-177: the [while] loop.  [fuel] bounds the number of times
    its condition is evaluated. *)
Fixpoint bisect (fuel : nat) (self : ref) (pt_intersection : BaseGeometry)
    (pt1 pt2 directory orth : point) (diameter house_area : float)
    (width dw : float) (res : list Polygon) : M (list Polygon) :=
  match fuel with
  | O => fun _ => OutOfFuel
  | S fuel =>
      r0 ← index res 0;
      if off_target house_area r0 then
        let cut := cut_line pt1 pt2 directory orth diameter width in
        p ← polygon self;
        let res := ops_split p cut in
        let dw := (dw / 2)%float in
        if (length res =? 0)%nat then
          bisect fuel self pt_intersection pt1 pt2 directory orth diameter
                 house_area (width - dw)%float dw res
        else
          res ← order_pieces pt_intersection res;
          r0 ← index res 0;
          if gtb (area r0) house_area then
            bisect fuel self pt_intersection pt1 pt2 directory orth diameter
                   house_area (width - dw)%float dw res
          else
            bisect fuel self pt_intersection pt1 pt2 directory orth diameter
                   house_area (width + dw)%float dw res
      else mret res
  end.

(** Lines 178-183: the two new areas, stored or returned. *)
Definition materialize (self : ref) (res : list Polygon) (inplace : bool)
    (new_category : Category) : M (option (ref * ref)) :=
  r0 ← index res 0;
  a ← load self;
  area0 ← __init__ r0 (_category a) None;
  r1 ← index res 1;
  area1 ← __init__ r1 new_category None;
  if inplace then
    l ← new_list [area0; area1];
    set__sub_areas self l;;
    mret None
  else mret (Some (area0, area1)).

(** Lines 125-177: from the orientation test to the end of the loop; the
    value is [res] as the loop leaves it. *)
Definition split_pieces (fuel : nat) (self : ref) (percentage direction : float)
    : M (list Polygon) :=
  p ← polygon self;
  (if negb (is_ccw p) then
     p ← polygon self;
     let coords := exterior_coords p in
     set_polygon self (Polygon_of_coords (rev coords))
   else mret tt);;
  let direction := deg2rad (90 - direction)%float in
  p ← polygon self;
  let pts := exterior_coords (minimum_rotated_rectangle p) in
  c2 ← index pts 2;
  c0 ← index pts 0;
  let diameter := norm (vsub c2 c0) in
  p ← polygon self;
  let start := centroid p in
  let end_ := vadd start (diameter * cos direction, diameter * sin direction)%float in
  let path := (start, end_) in
  p ← polygon self;
  pt_intersection ← hit_point path p;
  p ← polygon self;
  let pts := boundary_coords p in
  match find_edge (edges pts) pt_intersection None with
  | None => raise TypeError
  | Some (pt1, pt2) =>
      let dist := norm (vsub pt2 pt1) in
      let directory := vdiv (vsub pt2 pt1) dist in
      let orth := (- directory.2, directory.1)%float in
      p ← polygon self;
      let house_area := (area p * percentage)%float in
      let width := (diameter / 2)%float in
      p ← polygon self;
      bisect fuel self pt_intersection pt1 pt2 directory orth diameter
             house_area width width [p]
  end.

(** The method: the assert statement, lines 125-177, lines 178-183.  An
    omitted [inplace] is [True] and an omitted [new_category] is
    [Category.GARDEN]; the result is [None] or the pair [(area0, area1)]. *)
Definition split (fuel : nat) (self : ref) (percentage direction : float)
    (inplace : option bool) (new_category : option Category)
    : M (option (ref * ref)) :=
  let inplace := default true inplace in
  let new_category := default GARDEN new_category in
  assert_ (gtb percentage 0);;
  res ← split_pieces fuel self percentage direction;
  materialize self res inplace new_category.

End Split.

(** ** [Area.__del__] *)

Section Lifecycle.
Context `{L : Lib}.

(** [l.remove(x)]: the list without its first item equal to [x]; nothing
    when no item is ([ValueError] in Python).  Areas define no [__eq__], so
    equal means identical. *)
Fixpoint list_remove (x : ref) (l : list ref) : option (list ref) :=
  match l with
  | [] => None
  | y :: r => if decide (y = x) then Some r else cons y <$> list_remove x r
  end.

(** [Area.members.remove(self)] *)
Definition members_remove (self : ref) : M unit := fun w =>
  match list_remove self (members w) with
  | Some l =>
      Done tt {| _last_id := _last_id w; members := l; areas := areas w;
                 lists := lists w |}
  | None => Raised ValueError w
  end.

(** The method: the removal under [try], with [except ValueError: pass]. *)
Definition __del__ (self : ref) : M unit := fun w =>
  match members_remove self w with
  | Raised ValueError w' => Done tt w'
  | o => o
  end.

End Lifecycle.

(** ** [Area.__repr__] and [Area.__str__] *)

(** What the two methods ask of their surroundings: the [wkt] of a polygon
    and its [str], and the [str] of a category, which is the member's name
    or its number, depending on the version of Python. *)
Class Text `{L : Lib} := {
  wkt : Polygon -> string;
  str_Polygon : Polygon -> string;
  str_Category : Category -> string
}.

Section Printing.
Context `{T : Text}.

(** [str] of an integer: its decimal digits after a minus sign if it is
    negative. *)
Definition str_int (z : Z) : string := pretty z.

Definition __repr__ (self : ref) : M string :=
  a ← load self;
  p ← polygon self;
  mret ((str_Category (_category a) +:+ ":") +:+ wkt p).

Definition __str__ (self : ref) : M string :=
  a ← load self;
  mret ((((("Area : id =  " +:+ str_int (_id a)) +:+ " / category = ")
          +:+ str_Category (_category a)) +:+ " / polygon = ")
        +:+ str_Polygon (_polygon a)).

End Printing.

(** ** Notions the statements use *)

Section Notions.
Context `{L : Lib}.

(** A computation that leaves the world as it found it, with [Q] of its
    value when it returns one. *)
Definition unchanged {A} (w : World) (o : outcome A) (Q : A -> Prop) : Prop :=
  match o with
  | Done a w' => w' = w /\ Q a
  | Raised _ w' => w' = w
  | OutOfFuel | Stuck => True
  end.

(** The world after [Area(p, c)]. *)
Definition constructed (p : Polygon) (c : Category) (w : World) : World :=
  {| _last_id := _last_id w + 1;
     members := members w ++ [length (areas w)];
     areas := areas w ++ [{| _polygon := p; _category := c;
                             _sub_areas := length (lists w);
                             _id := _last_id w + 1 |}];
     lists := lists w ++ [[]] |}.

(** The world after [self._sub_areas = [x1, ..., xn]], [a] being the
    attributes of [self]. *)
Definition installed (self : ref) (a : Area) (xs : list ref) (w : World) : World :=
  {| _last_id := _last_id w;
     members := members w;
     areas := <[self := {| _polygon := _polygon a; _category := _category a;
                           _sub_areas := length (lists w); _id := _id a |}]>
              (areas w);
     lists := lists w ++ [xs] |}.

(** The two areas a completed [split] hands over: the items of the list now
    under [self._sub_areas] when [inplace], the returned pair otherwise. *)
Definition hands_over (self : ref) (inplace : bool) (v : option (ref * ref))
    (w' : World) (first second : ref) : Prop :=
  if inplace then
    v = None /\
    exists b, areas w' !! self = Some b /\
              lists w' !! _sub_areas b = Some [first; second]
  else v = Some (first, second).

(** The worlds a program can be in: the module is loaded, and then lists
    are built, areas are constructed (with no list or with an existing one),
    and [split] and [components] are called on anything, whether they return
    or raise. *)
Inductive reachable : World -> Prop :=
| reach_initial : reachable initial_world
| reach_list w xs l w' :
    reachable w -> new_list xs w = Done l w' -> reachable w'
| reach_init w p c sa self w' :
    reachable w ->
    (forall l, sa = Some l -> is_Some (lists w !! l)) ->
    __init__ p c sa w = Done self w' -> reachable w'
| reach_split w fuel self percentage direction inplace new_category w' :
    reachable w ->
    final_world (split fuel self percentage direction inplace new_category w)
      = Some w' ->
    reachable w'
| reach_components w self l w' :
    reachable w -> components self w = Done l w' -> reachable w'.

(** What holds of every reachable world. *)
Record world_ok (w : World) : Prop := {
  ok_order : forall i j a b, (i < j)%nat ->
             areas w !! i = Some a -> areas w !! j = Some b -> _id a < _id b;
  ok_bound : forall i a, areas w !! i = Some a -> _id a <= _last_id w;
  ok_members : members w = seq 0 (length (areas w))
}.

End Notions.

(** ** Further notions *)

Section MoreNotions.
Context `{L : Lib}.

(** Ids handed out one after the other from 1. *)
Record ids_dense (w : World) : Prop := {
  dense_last : _last_id w = Z.of_nat (length (areas w));
  dense_id : forall r a, areas w !! r = Some a -> _id a = Z.of_nat r + 1
}.

(** Lines 128-135: the ray cast from the centroid of [p], [c2] and [c0]
    being the corners of the bounding rectangle that line 131 reads. *)
Definition ray_of (p : Polygon) (direction : float) (c2 c0 : point)
    : point * point :=
  let angle := deg2rad (90 - direction)%float in
  let diameter := norm (vsub c2 c0) in
  (centroid p,
   vadd (centroid p) (diameter * cos angle, diameter * sin angle)%float).

(** The test of line 146. *)
Definition near (pt_intersection : BaseGeometry) (e : point * point) : bool :=
  PrimFloat.ltb (LineString_distance e pt_intersection)
                0x1.0c6f7a0b5ed8dp-20%float.

End MoreNotions.

(** A string without a space in it. *)
Fixpoint nospace (s : string) : Prop :=
  match s with
  | EmptyString => True
  | String c s => c <> Ascii.Space /\ nospace s
  end.

(** ** An executable geometry for the examples

    Modelled from the spec: the geometry library of its section 6 (shapely)
    and numpy's [deg2rad], [cos] and [sin], none of which is part of the
    repository.  Polygons are closed coordinate rings without holes; the
    operations are the textbook ones and are meant for the convex,
    axis-parallel shapes of the examples below, not as a model of shapely. *)

Module Plane.
Local Open Scope float_scope.

Definition point_eqb (a b : point) : bool := (a.1 =? b.1) && (a.2 =? b.2).

(** [Polygon(coords)] closes the ring when the caller did not. *)
Definition close_ring (l : list point) : list point :=
  match l, list.last l with
  | a :: _, Some b => if point_eqb a b then l else l ++ [a]
  | _, _ => l
  end.

Definition cross (a b : point) : float := a.1 * b.2 - a.2 * b.1.

Fixpoint shoelace (l : list point) : float :=
  match l with
  | a :: (b :: _) as t => cross a b + shoelace t
  | _ => 0
  end.

Definition signed_area (l : list point) : float := shoelace l / 2.

Fixpoint centroid_sum (l : list point) : point :=
  match l with
  | a :: (b :: _) as t =>
      vadd ((a.1 + b.1) * cross a b, (a.2 + b.2) * cross a b) (centroid_sum t)
  | _ => (0, 0)
  end.

Definition fmin (a b : float) : float := if a <? b then a else b.
Definition fmax (a b : float) : float := if a <? b then b else a.

(** The axis-parallel bounding box; for the shapes of the examples it is
    the minimum rotated rectangle. *)
Definition bounding_box (l : list point) : list point :=
  match l with
  | [] => []
  | a :: t =>
      let x0 := foldr (fun p m => fmin p.1 m) a.1 t in
      let x1 := foldr (fun p m => fmax p.1 m) a.1 t in
      let y0 := foldr (fun p m => fmin p.2 m) a.2 t in
      let y1 := foldr (fun p m => fmax p.2 m) a.2 t in
      [(x0, y0); (x1, y0); (x1, y1); (x0, y1); (x0, y0)]
  end.

Inductive geometry :=
| Point (p : point)
| MultiPoint (ps : list point)
| GeometryCollection_empty.

(** The parameter in [0, 1] at which the segment [s] crosses the segment
    [e], if it does. *)
Definition crossing (s e : point * point) : option float :=
  let d := vsub s.2 s.1 in
  let f := vsub e.2 e.1 in
  let den := cross d f in
  if den =? 0 then None
  else
    let t := cross (vsub e.1 s.1) f / den in
    let u := cross (vsub e.1 s.1) d / den in
    if (0 <=? t) && (t <=? 1) && (0 <=? u) && (u <=? 1) then Some t else None.

Fixpoint insert_sorted (t : float) (l : list float) : list float :=
  match l with
  | [] => [t]
  | x :: r => if t <=? x then t :: l else x :: insert_sorted t r
  end.

(** The crossings of a segment with a ring, in the order of the segment's
    own parametrization. *)
Definition crossings (s : point * point) (ring : list point) : list float :=
  foldr insert_sorted []
        (omap (crossing s) (zip (removelast ring) (tail ring))).

Definition at_parameter (s : point * point) (t : float) : point :=
  vadd s.1 (vscale t (vsub s.2 s.1)).

Definition intersection (s : point * point) (ring : list point) : geometry :=
  match crossings s ring with
  | [] => GeometryCollection_empty
  | [t] => Point (at_parameter s t)
  | ts => MultiPoint (at_parameter s <$> ts)
  end.

(** Listing a multi-point gives its points.  A single point is the case the
    source's [except ValueError: pass] provides for. *)
Definition to_list (g : geometry) : exn + list geometry :=
  match g with
  | MultiPoint ps => inr (Point <$> ps)
  | Point _ => inl ValueError
  | GeometryCollection_empty => inr []
  end.

Definition point_segment_distance (p : point) (e : point * point) : float :=
  let d := vsub e.2 e.1 in
  let len2 := d.1 * d.1 + d.2 * d.2 in
  let t := if len2 =? 0 then 0
           else fmax 0 (fmin 1 (((p.1 - e.1.1) * d.1 + (p.2 - e.1.2) * d.2) / len2)) in
  norm (vsub p (vadd e.1 (vscale t d))).

Definition points_of (g : geometry) : list point :=
  match g with
  | Point p => [p]
  | MultiPoint ps => ps
  | GeometryCollection_empty => []
  end.

Definition segment_distance (e : point * point) (g : geometry) : float :=
  foldr (fun p m => fmin (point_segment_distance p e) m) infinity (points_of g).

(** Inside a convex counter-clockwise ring, or on it. *)
Definition inside (p : point) (ring : list point) : bool :=
  forallb (fun e : point * point => 0 <=? cross (vsub e.2 e.1) (vsub p e.1))
          (zip (removelast ring) (tail ring)).

Definition point_ring_distance (p : point) (ring : list point) : float :=
  if inside p ring then 0
  else foldr (fun e m => fmin (point_segment_distance p e) m) infinity
             (zip (removelast ring) (tail ring)).

Definition ring_distance (g : geometry) (ring : list point) : float :=
  foldr (fun p m => fmin (point_ring_distance p ring) m) infinity (points_of g).

(** The part of a convex ring on the non-negative side of [side]. *)
Fixpoint clip (side : point -> float) (l : list point) : list point :=
  match l with
  | p :: (q :: _) as t =>
      let sp := side p in
      let sq := side q in
      (if 0 <=? sp then [p] else [])
      ++ (if sp * sq <? 0
          then [vadd p (vscale (sp / (sp - sq)) (vsub q p))]
          else [])
      ++ clip side t
  | _ => []
  end.

(** A convex ring cut along the unbounded line through the two points of
    [cut]: the piece on its left, then the piece on its right; the ring
    itself when the line leaves everything on one side. *)
Definition split_ring (ring : list point) (cut : point * point) : list (list point) :=
  let side p := cross (vsub cut.2 cut.1) (vsub p cut.1) in
  let l := close_ring (clip side ring) in
  let r := close_ring (clip (fun p => - side p) ring) in
  if (0 <? abs (signed_area l)) && (0 <? abs (signed_area r))
  then [l; r] else [ring].

Fixpoint series (n : nat) (term k x2 : float) : float :=
  match n with
  | O => 0
  | S n => term + series n (- term * x2 / ((k + 1) * (k + 2))) (k + 2) x2
  end.

#[export] Instance lib : Lib := {|
  Polygon := list point;
  BaseGeometry := geometry;
  Polygon_of_coords := close_ring;
  exterior_coords := fun p => p;
  is_ccw := fun p => 0 <=? signed_area p;
  minimum_rotated_rectangle := bounding_box;
  centroid := fun p => vdiv (centroid_sum p) (6 * signed_area p);
  boundary_coords := fun p => p;
  area := fun p => abs (signed_area p);
  intersection_boundary := intersection;
  py_list := to_list;
  LineString_distance := segment_distance;
  distance := ring_distance;
  ops_split := split_ring;
  deg2rad := fun x => x * 0x1.1df46a2529d39p-6;
  cos := fun x => series 20 1 0 (x * x);
  sin := fun x => series 20 x 1 (x * x)
|}.

(** The rectangle of the docstring of [split], its mirror image listed
    clockwise, and a U-shaped lot whose centroid lies in its notch. *)
Definition rectangle : list point :=
  close_ring [(0, 0); (20, 0); (20, 40); (0, 40)].
Definition rectangle_cw : list point :=
  close_ring [(0, 0); (0, 40); (20, 40); (20, 0)].
Definition u_shape : list point :=
  close_ring [(0, 0); (30, 0); (30, 30); (20, 30); (20, 10); (10, 10);
              (10, 30); (0, 30)].

End Plane.
(** ** The worlds of the examples *)

Module Examples.
Import Plane.
Local Open Scope float_scope.

(** [surf = Area(Polygon([(0,0), (20,0), (20,40), (0,40)]), Category.HOUSE)]
    in a fresh interpreter. *)
Definition surf : Area :=
  {| _polygon := rectangle; _category := HOUSE; _sub_areas := 0%nat; _id := 1 |}.
Definition world_surf : World :=
  {| _last_id := 1; members := [0%nat]; areas := [surf]; lists := [[]] |}.

(** The same with the vertices listed clockwise. *)
Definition surf_cw : Area :=
  {| _polygon := rectangle_cw; _category := HOUSE; _sub_areas := 0%nat;
     _id := 1 |}.
Definition world_cw : World :=
  {| _last_id := 1; members := [0%nat]; areas := [surf_cw]; lists := [[]] |}.

Definition world_after {A} (o : outcome A) : World :=
  match final_world o with Some w => w | None => initial_world end.

(** [surf.split(0.25, 0, False)] and [surf.split(0.25, 0)], the call of the
    docstring and its in-place variant. *)
Definition world_returned : World :=
  Eval vm_compute in
    world_after (split 50 0%nat 0.25 0 (Some false) None world_surf).
Definition world_inplace : World :=
  Eval vm_compute in
    world_after (split 50 0%nat 0.25 0 None None world_surf).

(** [surf] once split in place. *)
Definition surf_inplace : Area :=
  {| _polygon := rectangle; _category := HOUSE; _sub_areas := 3%nat; _id := 1 |}.

(** The frame of that call when its loop starts: the hit point and the
    diameter; the edge hit runs from (20, 40) to (0, 40). *)
Definition hit : geometry := Point (10, 40).
Definition diameter : float := Eval vm_compute in norm (20, 40).

(** A rendering for the examples: a category as its number, a polygon as
    a tag with its number of coordinates. *)
#[export] Instance text : Text (L := lib) := {|
  wkt := fun p => "POLYGON/" +:+ pretty (length p);
  str_Polygon := fun p => "POLYGON/" +:+ pretty (length p);
  str_Category := fun c => pretty (Category_value c)
|}.

(** The two areas the docstring's call constructs. *)
Definition house : Area :=
  Eval vm_compute in default surf (areas world_returned !! 1%nat).
Definition garden : Area :=
  Eval vm_compute in default surf (areas world_returned !! 2%nat).

(** [world_returned] once the house is deleted, and then a park built. *)
Definition world_deleted : World :=
  Eval vm_compute in world_after (__del__ 1%nat world_returned).
Definition world_park : World :=
  Eval vm_compute in world_after (__init__ u_shape PARK None world_deleted).

(** A library whose [ops.split] yields no piece at all, otherwise the
    geometry above, and [surf] in its world. *)
Definition lib_no_piece : Lib := {|
  Polygon := list point;
  BaseGeometry := geometry;
  Polygon_of_coords := close_ring;
  exterior_coords := fun p => p;
  is_ccw := fun p => 0 <=? signed_area p;
  minimum_rotated_rectangle := bounding_box;
  centroid := fun p => vdiv (centroid_sum p) (6 * signed_area p);
  boundary_coords := fun p => p;
  area := fun p => abs (signed_area p);
  intersection_boundary := intersection;
  py_list := to_list;
  LineString_distance := segment_distance;
  distance := ring_distance;
  ops_split := fun _ _ => [];
  deg2rad := fun x => x * 0x1.1df46a2529d39p-6;
  cos := fun x => series 20 1 0 (x * x);
  sin := fun x => series 20 x 1 (x * x)
|}.
Definition surf_no_piece : Area (L := lib_no_piece) :=
  mkArea (L := lib_no_piece) rectangle HOUSE 0%nat 1%Z.
Definition world_no_piece : World (L := lib_no_piece) :=
  mkWorld (L := lib_no_piece) 1%Z [0%nat] [surf_no_piece] [[]].

(** A tiny lot, of area 1. *)
Definition lot : Area :=
  {| _polygon := close_ring [(0, 0); (1, 0); (1, 1); (0, 1)];
     _category := HOUSE; _sub_areas := 0%nat; _id := 1 |}.
Definition world_lot : World :=
  {| _last_id := 1; members := [0%nat]; areas := [lot]; lists := [[]] |}.

Definition world_lot_failed : World :=
  Eval vm_compute in world_after (split 50 0%nat 0.5 0 None None world_lot).

(** [str(house)] *)
Definition house_str : string :=
  Eval vm_compute in
    match __str__ 1%nat world_returned with
    | Done s _ => s
    | _ => EmptyString
    end.

(** The cut of that call at offset 10 from the northern edge, and the two
    pieces it yields. *)
Definition cut_at_10 : point * point :=
  Eval vm_compute in cut_line (20, 40) (0, 40) (-1, 0) (-0, -1) diameter 10.
Definition south_30 : list point :=
  Eval vm_compute in default [] (split_ring rectangle cut_at_10 !! 0%nat).
Definition north_10 : list point :=
  Eval vm_compute in default [] (split_ring rectangle cut_at_10 !! 1%nat).

(** [res] when lines 125-177 of the docstring's call are through. *)
Definition final_pieces : list (list point) :=
  Eval vm_compute in
    match split_pieces 50 0%nat 0.25 0 world_surf with
    | Done res _ => res
    | _ => []
    end.

(** The geometry above with another crossing and another split. *)
Definition lib_with
    (crossing_of : point * point -> list point -> geometry)
    (split_of : list point -> point * point -> list (list point)) : Lib := {|
  Polygon := list point;
  BaseGeometry := geometry;
  Polygon_of_coords := close_ring;
  exterior_coords := fun p => p;
  is_ccw := fun p => 0 <=? signed_area p;
  minimum_rotated_rectangle := bounding_box;
  centroid := fun p => vdiv (centroid_sum p) (6 * signed_area p);
  boundary_coords := fun p => p;
  area := fun p => abs (signed_area p);
  intersection_boundary := crossing_of;
  py_list := to_list;
  LineString_distance := segment_distance;
  distance := ring_distance;
  ops_split := split_of;
  deg2rad := fun x => x * 0x1.1df46a2529d39p-6;
  cos := fun x => series 20 1 0 (x * x);
  sin := fun x => series 20 x 1 (x * x)
|}.


(** The three parts of the U-shaped lot cut along y = 20: its base and its
    two prongs; a library whose split yields them, whatever it is asked;
    the lot in that library's world, and the top of the left prong. *)
Definition u_base : list point :=
  close_ring [(0, 0); (30, 0); (30, 20); (20, 20); (20, 10); (10, 10);
              (10, 20); (0, 20)].
Definition u_left : list point :=
  close_ring [(0, 20); (10, 20); (10, 30); (0, 30)].
Definition u_right : list point :=
  close_ring [(20, 20); (30, 20); (30, 30); (20, 30)].
Definition lib_u_cut : Lib :=
  lib_with intersection (fun _ _ => [u_base; u_left; u_right]).
Definition lot_u : Area (L := lib_u_cut) :=
  mkArea (L := lib_u_cut) u_shape FIELD 0%nat 1%Z.
Definition world_u : World (L := lib_u_cut) :=
  mkWorld (L := lib_u_cut) 1%Z [0%nat] [lot_u] [[]].
Definition top_left : geometry := Point (5, 30).

(** The two pieces of [final_pieces]. *)
Definition final_north : list point :=
  Eval vm_compute in default [] (final_pieces !! 0%nat).
Definition final_south : list point :=
  Eval vm_compute in default [] (final_pieces !! 1%nat).


End Examples.

(** ** Comparisons of binary64 numbers *)

Section FloatOrder.

Lemma SFcompare_antisym (x y : spec_float) (c : comparison) :
  SFcompare x y = Some c -> SFcompare y x = Some (CompOpp c).
Proof.
  destruct x as [sx|sx| |sx mx ex], y as [sy|sy| |sy my ey]; simpl;
    intros H; inversion H; subst; clear H;
    try (destruct sx; reflexivity); try (destruct sy; reflexivity);
    try (destruct sx, sy; reflexivity).
  f_equal.
  destruct sx, sy; simpl; try reflexivity;
    rewrite (Z.compare_antisym ex ey);
    destruct (ex ?= ey)%Z; simpl; try reflexivity.
  - f_equal. apply ZC4.
  - apply ZC4.
Qed.

(** [a < b] excludes [b < a]. *)
Lemma ltb_asym (a b : float) :
  PrimFloat.ltb a b = true -> PrimFloat.ltb b a = false.
Proof.
  rewrite !FloatAxioms.ltb_spec. unfold SFltb.
  destruct (SFcompare (Prim2SF a) (Prim2SF b)) as [c|] eqn:E; [|discriminate].
  rewrite (SFcompare_antisym _ _ _ E).
  destruct c; simpl; congruence.
Qed.


End FloatOrder.

(** ** The entity: construction and [components] *)

Section EntityFacts.
Context `{L : Lib}.

(** The world a constructor call leaves. *)
Lemma init_eq (p : Polygon) (c : Category) (sa : option lref) (w : World) :
  __init__ p c sa w =
  Done (length (areas w))
       {| _last_id := _last_id w + 1;
          members := members w ++ [length (areas w)];
          areas := areas w ++ [{| _polygon := p; _category := c;
                                  _sub_areas := default (length (lists w)) sa;
                                  _id := _last_id w + 1 |}];
          lists := match sa with
                   | None => lists w ++ [[]]
                   | Some _ => lists w
                   end |}.
Proof. destruct sa; reflexivity. Qed.

(** C7: [components] returns the list [_sub_areas] itself when it is not
    empty and a new one-element list holding the area otherwise; what it
    returns is never empty. *)
Theorem components_spec (w : World) (self : ref) (a : Area) (xs : list ref) :
  areas w !! self = Some a ->
  lists w !! _sub_areas a = Some xs ->
  exists (l : lref) (w' : World) (ys : list ref),
    components self w = Done l w' /\
    lists w' !! l = Some ys /\
    ys <> [] /\
    areas w' = areas w /\
    (xs <> [] -> l = _sub_areas a /\ ys = xs /\ w' = w) /\
    (xs = [] -> ys = [self]).
Proof.
  intros Ha Hxs.
  unfold components, load, load_list, mbind, M_bind. rewrite Ha, Hxs.
  destruct xs as [|x xs]; simpl.
  - eexists _, _, [self]. split; [reflexivity|]. simpl.
    rewrite lookup_app_r, Nat.sub_diag by lia.
    repeat split; try done.
  - exists (_sub_areas a), w, (x :: xs). repeat split; try done.
Qed.

(** C10: the constructor accepts every polygon and every category, appends
    the new instance once to [Area.members], and gives it an empty list of
    its own: a list object that did not exist before, so that no other area
    refers to it as long as the areas there were refer to lists there were. *)
Theorem init_no_validation (w : World) (p : Polygon) (c : Category) :
  exists (self : ref) (w' : World) (s : Area),
    __init__ p c None w = Done self w' /\
    areas w !! self = None /\
    areas w' !! self = Some s /\
    _polygon s = p /\ _category s = c /\
    members w' = members w ++ [self] /\
    lists w !! _sub_areas s = None /\
    lists w' !! _sub_areas s = Some [] /\
    ((forall r b, areas w !! r = Some b -> is_Some (lists w !! _sub_areas b)) ->
     forall r b, r <> self -> areas w' !! r = Some b ->
                 _sub_areas b <> _sub_areas s).
Proof.
  rewrite init_eq. eexists _, _, _.
  split; [reflexivity|]. simpl.
  rewrite lookup_app_r, Nat.sub_diag by lia. simpl.
  split; [apply lookup_ge_None_2; lia|].
  split; [reflexivity|]. simpl.
  repeat split.
  - apply lookup_ge_None_2; lia.
  - rewrite lookup_app_r, Nat.sub_diag by lia. reflexivity.
  - intros Hwf r b Hr Hb.
    apply lookup_app_Some in Hb as [Hb|[Hlen Hb]].
    + destruct (Hwf r b Hb) as [ys Hys].
      apply lookup_lt_Some in Hys. lia.
    + destruct (r - length (areas w))%nat eqn:E; [lia|].
      simpl in Hb. rewrite lookup_nil in Hb. discriminate.
Qed.

End EntityFacts.

(** ** The split *)

Section SplitFacts.
Context `{L : Lib}.

Lemma unchanged_bind {A B} (m : M A) (f : A -> M B) (w : World)
    (Q : A -> Prop) (R : B -> Prop) :
  unchanged w (m w) Q ->
  (forall a, Q a -> unchanged w (f a w) R) ->
  unchanged w ((m ≫= f) w) R.
Proof.
  unfold mbind, M_bind. destruct (m w) as [a w'|e w'| |]; simpl; try done.
  intros [-> Ha] Hf. by apply Hf.
Qed.

Lemma bind_Done {A B} (m : M A) (f : A -> M B) (w : World) (a : A) (w1 : World) :
  m w = Done a w1 -> (m ≫= f) w = f a w1.
Proof. unfold mbind, M_bind. by intros ->. Qed.

Lemma unchanged_weaken {A} (w : World) (o : outcome A) (Q R : A -> Prop) :
  unchanged w o Q -> (forall a, Q a -> R a) -> unchanged w o R.
Proof. destruct o; simpl; intuition. Qed.

Lemma unchanged_polygon (self : ref) (w : World) :
  unchanged w (polygon self w)
            (fun p => exists a, areas w !! self = Some a /\ p = _polygon a).
Proof.
  unfold polygon, load, mbind, M_bind.
  destruct (areas w !! self) eqn:E; simpl; eauto.
Qed.

Lemma unchanged_index {A} (l : list A) (i : nat) (w : World) :
  unchanged w (index l i w) (fun x => l !! i = Some x).
Proof. unfold index. destruct (l !! i); simpl; auto. Qed.

Lemma unchanged_hit_point (path : point * point) (p : Polygon) (w : World) :
  unchanged w (hit_point path p w) (fun _ => True).
Proof.
  unfold hit_point.
  destruct (py_list _) as [[]|l]; simpl; auto.
  destruct (list.last l); simpl; auto.
Qed.

Lemma unchanged_order_pieces (pt : BaseGeometry) (res : list Polygon) (w : World) :
  unchanged w (order_pieces pt res w) (fun _ => True).
Proof.
  unfold order_pieces.
  eapply unchanged_bind; [apply unchanged_index|]. intros r0 _.
  eapply unchanged_bind; [apply unchanged_index|]. intros r1 _.
  destruct (gtb _ _); simpl; auto.
Qed.

(** The loop leaves the world alone and ends only on its exit condition. *)
Lemma unchanged_bisect (fuel : nat) (self : ref) (pt : BaseGeometry)
    (pt1 pt2 directory orth : point) (diameter house_area : float) :
  forall (width dw : float) (res : list Polygon) (w : World),
  unchanged w
    (bisect fuel self pt pt1 pt2 directory orth diameter house_area
            width dw res w)
    (fun res' => exists r0,
       res' !! 0%nat = Some r0 /\ off_target house_area r0 = false).
Proof.
  induction fuel as [|fuel IH]; intros width dw res w; simpl; [done|].
  eapply unchanged_bind; [apply unchanged_index|]. intros r0 Hr0.
  destruct (off_target house_area r0) eqn:Hoff;
    [|simpl in *; split; [done|by exists r0]].
  eapply unchanged_bind; [apply unchanged_polygon|]. intros p _.
  destruct (length _ =? 0)%nat; [apply IH|].
  eapply unchanged_bind; [apply unchanged_order_pieces|]. intros res' _.
  eapply unchanged_bind; [apply unchanged_index|]. intros r0' _.
  destruct (gtb _ _); apply IH.
Qed.

(** More fuel does not change what the loop does once it has ended. *)
Lemma bisect_fuel_mono (fuel : nat) (self : ref) (pt : BaseGeometry)
    (pt1 pt2 directory orth : point) (diameter house_area : float) :
  forall (width dw : float) (res : list Polygon) (w : World),
  bisect fuel self pt pt1 pt2 directory orth diameter house_area
         width dw res w <> OutOfFuel ->
  bisect (S fuel) self pt pt1 pt2 directory orth diameter house_area
         width dw res w
  = bisect fuel self pt pt1 pt2 directory orth diameter house_area
           width dw res w.
Proof.
  induction fuel as [|fuel IH]; intros width dw res w; [done|].
  change (bisect (S (S fuel)) self pt pt1 pt2 directory orth diameter
                 house_area width dw res)
    with (r0 ← index res 0;
          if off_target house_area r0 then
            p ← polygon self;
            let res := ops_split p (cut_line pt1 pt2 directory orth diameter width) in
            let dw := (dw / 2)%float in
            if (length res =? 0)%nat then
              bisect (S fuel) self pt pt1 pt2 directory orth diameter
                     house_area (width - dw)%float dw res
            else
              res ← order_pieces pt res;
              r0 ← index res 0;
              if gtb (area r0) house_area then
                bisect (S fuel) self pt pt1 pt2 directory orth diameter
                       house_area (width - dw)%float dw res
              else
                bisect (S fuel) self pt pt1 pt2 directory orth diameter
                       house_area (width + dw)%float dw res
          else mret res).
  change (bisect (S fuel) self pt pt1 pt2 directory orth diameter
                 house_area width dw res)
    with (r0 ← index res 0;
          if off_target house_area r0 then
            p ← polygon self;
            let res := ops_split p (cut_line pt1 pt2 directory orth diameter width) in
            let dw := (dw / 2)%float in
            if (length res =? 0)%nat then
              bisect fuel self pt pt1 pt2 directory orth diameter
                     house_area (width - dw)%float dw res
            else
              res ← order_pieces pt res;
              r0 ← index res 0;
              if gtb (area r0) house_area then
                bisect fuel self pt pt1 pt2 directory orth diameter
                       house_area (width - dw)%float dw res
              else
                bisect fuel self pt pt1 pt2 directory orth diameter
                       house_area (width + dw)%float dw res
          else mret res) at 1 2.
  unfold mbind, M_bind.
  destruct (index res 0 w) as [r0 w1|e w1| |]; try done.
  destruct (off_target house_area r0); [|done].
  destruct (polygon self w1) as [p w2|e w2| |]; try done.
  cbv zeta.
  destruct (length _ =? 0)%nat; [apply IH|].
  destruct (order_pieces pt _ w2) as [res' w3|e w3| |]; try done.
  destruct (index res' 0 w3) as [r0' w4|e w4| |]; try done.
  destruct (gtb _ _); apply IH.
Qed.

Lemma bind_ext_fuel {A B} (m : M A) (f g : A -> M B) (w : World) :
  (m ≫= f) w <> OutOfFuel ->
  (forall a w1, m w = Done a w1 -> f a w1 <> OutOfFuel -> g a w1 = f a w1) ->
  (m ≫= g) w = (m ≫= f) w.
Proof.
  unfold mbind, M_bind. destruct (m w) as [a w1|e w1| |]; try done.
  intros Hf H. by apply H.
Qed.

(** The same for the whole call: [fuel] only matters while the loop runs. *)
Lemma split_fuel_mono (fuel : nat) (self : ref) (percentage direction : float)
    (inplace : option bool) (nc : option Category) (w : World) :
  split fuel self percentage direction inplace nc w <> OutOfFuel ->
  split (S fuel) self percentage direction inplace nc w
  = split fuel self percentage direction inplace nc w.
Proof.
  unfold split. intros H.
  apply bind_ext_fuel; [exact H|]. intros _ w1 _ H1. clear H.
  unfold mbind, M_bind in H1 |- *.
  assert (split_pieces fuel self percentage direction w1 <> OutOfFuel) as H
    by (intros E; rewrite E in H1; done).
  clear H1.
  assert (split_pieces (S fuel) self percentage direction w1
          = split_pieces fuel self percentage direction w1) as ->; [|done].
  revert H. unfold split_pieces.
  repeat (let H := fresh in
          intros H; apply bind_ext_fuel; [exact H|]; clear H; intros ? ? _).
  destruct (find_edge _ _ _) as [[pt1 pt2]|]; [|done].
  repeat (let H := fresh in
          intros H; apply bind_ext_fuel; [exact H|]; clear H; intros ? ? _).
  apply bisect_fuel_mono.
Qed.

(** Lines 125-177 as a whole: the world is untouched; a value is returned
    only for a counter-clockwise polygon, and its first piece meets the
    exit condition of the loop. *)
Lemma unchanged_split_pieces (fuel : nat) (self : ref)
    (percentage direction : float) (w : World) :
  unchanged w (split_pieces fuel self percentage direction w)
    (fun res => exists a r0,
       areas w !! self = Some a /\ is_ccw (_polygon a) = true /\
       res !! 0%nat = Some r0 /\
       off_target (area (_polygon a) * percentage)%float r0 = false).
Proof.
  unfold split_pieces.
  eapply unchanged_bind; [apply unchanged_polygon|]. intros p (a & Ha & ->).
  eapply (unchanged_bind _ _ _ (fun _ => is_ccw (_polygon a) = true)).
  { destruct (is_ccw (_polygon a)); simpl; [done|].
    eapply unchanged_bind; [apply unchanged_polygon|]. intros; done. }
  intros _ Hccw.
  eapply unchanged_bind; [apply unchanged_polygon|]. intros ? _.
  eapply unchanged_bind; [apply unchanged_index|]. intros c2 _.
  eapply unchanged_bind; [apply unchanged_index|]. intros c0 _.
  eapply unchanged_bind; [apply unchanged_polygon|]. intros ? _.
  eapply unchanged_bind; [apply unchanged_polygon|]. intros ? _.
  eapply unchanged_bind; [apply unchanged_hit_point|]. intros pt _.
  eapply unchanged_bind; [apply unchanged_polygon|]. intros ? _.
  destruct (find_edge _ _ _) as [[pt1 pt2]|]; [|done].
  eapply unchanged_bind; [apply unchanged_polygon|]. intros ? (a' & Ha' & ->).
  eapply unchanged_bind; [apply unchanged_polygon|]. intros ? _.
  eapply unchanged_weaken; [apply unchanged_bisect|].
  intros res (r0 & Hr0 & Hoff). exists a, r0.
  assert (a' = a) as -> by congruence. done.
Qed.

Lemma init_None_eq (p : Polygon) (c : Category) (w : World) :
  __init__ p c None w = Done (length (areas w)) (constructed p c w).
Proof. reflexivity. Qed.

(** Lines 178-183, case by case on the number of pieces. *)
Lemma materialize_eq (self : ref) (res : list Polygon) (inplace : bool)
    (nc : Category) (w : World) (a : Area) :
  areas w !! self = Some a ->
  materialize self res inplace nc w =
  match res with
  | [] => Raised IndexError w
  | [r0] => Raised IndexError (constructed r0 (_category a) w)
  | r0 :: r1 :: _ =>
      let w2 := constructed r1 nc (constructed r0 (_category a) w) in
      let first := length (areas w) in
      if inplace
      then Done None (installed self a [first; S first] w2)
      else Done (Some (first, S first)) w2
  end.
Proof.
  intros Ha. unfold materialize.
  assert (load self w = Done a w) as Hload by (unfold load; by rewrite Ha).
  destruct res as [|r0 [|r1 rest]]; [reflexivity| |].
  - rewrite (bind_Done _ _ w r0 w) by reflexivity.
    rewrite (bind_Done _ _ w a w Hload).
    rewrite (bind_Done _ _ _ _ _ (init_None_eq _ _ _)).
    reflexivity.
  - rewrite (bind_Done _ _ w r0 w) by reflexivity.
    rewrite (bind_Done _ _ w a w Hload).
    rewrite (bind_Done _ _ _ _ _ (init_None_eq _ _ _)).
    rewrite (bind_Done _ _ _ r1 _) by reflexivity.
    rewrite (bind_Done _ _ _ _ _ (init_None_eq _ _ _)).
    assert (length (areas (constructed r0 (_category a) w))
            = S (length (areas w))) as ->.
    { simpl. rewrite length_app. simpl. lia. }
    destruct inplace; [|reflexivity].
    unfold mbind, M_bind, new_list, set__sub_areas, installed. simpl.
    rewrite (lookup_app_l_Some _ _ _ _ (lookup_app_l_Some _ _ _ _ Ha)).
    reflexivity.
Qed.

(** What a completed call went through. *)
Lemma split_done (fuel : nat) (self : ref) (percentage direction : float)
    (inplace : option bool) (nc : option Category) (w w' : World) (a : Area)
    (v : option (ref * ref)) :
  areas w !! self = Some a ->
  split fuel self percentage direction inplace nc w = Done v w' ->
  exists r0 r1,
    gtb percentage 0 = true /\ is_ccw (_polygon a) = true /\
    off_target (area (_polygon a) * percentage)%float r0 = false /\
    let w2 := constructed r1 (default GARDEN nc)
                          (constructed r0 (_category a) w) in
    let first := length (areas w) in
    if default true inplace
    then v = None /\ w' = installed self a [first; S first] w2
    else v = Some (first, S first) /\ w' = w2.
Proof.
  intros Ha. unfold split, assert_.
  destruct (gtb percentage 0) eqn:Hp; [|discriminate].
  unfold mbind at 1, M_bind at 1. unfold mret, M_ret.
  unfold mbind, M_bind.
  pose proof (unchanged_split_pieces fuel self percentage direction w) as Hpieces.
  destruct (split_pieces _ _ _ _ w) as [res w1|e w1| |]; try discriminate.
  destruct Hpieces as [-> (a' & r0 & Ha' & Hccw & Hr0 & Hoff)].
  assert (a' = a) as -> by congruence.
  rewrite (materialize_eq _ _ _ _ _ _ Ha).
  destruct res as [|r0' [|r1 rest]]; try discriminate.
  simpl in Hr0. injection Hr0 as ->.
  intros H. exists r0, r1. repeat split; try done.
  simpl. destruct (default true inplace); injection H as <- <-; done.
Qed.

Lemma constructed_old (p : Polygon) (c : Category) (w : World) (r : ref) (b : Area) :
  areas w !! r = Some b -> areas (constructed p c w) !! r = Some b.
Proof. intros H. simpl. by apply lookup_app_l_Some. Qed.

Lemma constructed_new (p : Polygon) (c : Category) (w : World) :
  areas (constructed p c w) !! length (areas w)
  = Some {| _polygon := p; _category := c;
            _sub_areas := length (lists w); _id := _last_id w + 1 |}.
Proof. simpl. by rewrite lookup_app_r, Nat.sub_diag by lia. Qed.

Lemma constructed_length (p : Polygon) (c : Category) (w : World) :
  length (areas (constructed p c w)) = S (length (areas w)).
Proof. simpl. rewrite length_app. simpl. lia. Qed.

Lemma constructed_lists_old (p : Polygon) (c : Category) (w : World)
    (l : lref) (xs : list ref) :
  lists w !! l = Some xs -> lists (constructed p c w) !! l = Some xs.
Proof. intros H. simpl. by apply lookup_app_l_Some. Qed.

Lemma installed_self (self : ref) (a : Area) (xs : list ref) (w : World) :
  (self < length (areas w))%nat ->
  areas (installed self a xs w) !! self
  = Some {| _polygon := _polygon a; _category := _category a;
            _sub_areas := length (lists w); _id := _id a |}.
Proof. intros H. simpl. by apply list_lookup_insert_eq. Qed.

Lemma installed_other (self : ref) (a : Area) (xs : list ref) (w : World) (r : ref) :
  r <> self -> areas (installed self a xs w) !! r = areas w !! r.
Proof. intros H. simpl. by apply list_lookup_insert_ne. Qed.

Lemma installed_list (self : ref) (a : Area) (xs : list ref) (w : World) :
  lists (installed self a xs w) !! length (lists w) = Some xs.
Proof. simpl. by rewrite lookup_app_r, Nat.sub_diag by lia. Qed.

Lemma installed_lists_old (self : ref) (a : Area) (xs : list ref) (w : World)
    (l : lref) (ys : list ref) :
  lists w !! l = Some ys -> lists (installed self a xs w) !! l = Some ys.
Proof. intros H. simpl. by apply lookup_app_l_Some. Qed.

(** A completed call, seen from outside: the two new areas, where they
    are handed over, and what became of [self] and of the lists. *)
Lemma split_done_view (fuel : nat) (self : ref) (percentage direction : float)
    (inplace : option bool) (nc : option Category) (w w' : World) (a : Area)
    (v : option (ref * ref)) :
  areas w !! self = Some a ->
  split fuel self percentage direction inplace nc w = Done v w' ->
  exists (r0 r1 : Polygon) (b : Area),
    let first := length (areas w) in
    is_ccw (_polygon a) = true /\
    off_target (area (_polygon a) * percentage)%float r0 = false /\
    areas w' !! first
      = Some {| _polygon := r0; _category := _category a;
                _sub_areas := length (lists w); _id := _last_id w + 1 |} /\
    areas w' !! S first
      = Some {| _polygon := r1; _category := default GARDEN nc;
                _sub_areas := S (length (lists w));
                _id := _last_id w + 1 + 1 |} /\
    hands_over self (default true inplace) v w' first (S first) /\
    areas w' !! self = Some b /\
    _polygon b = _polygon a /\ _category b = _category a /\ _id b = _id a /\
    (if default true inplace then lists w !! _sub_areas b = None
     else _sub_areas b = _sub_areas a) /\
    (forall l xs, lists w !! l = Some xs -> lists w' !! l = Some xs).
Proof.
  intros Ha Hs.
  destruct (split_done _ _ _ _ _ _ _ _ _ _ Ha Hs)
    as (r0 & r1 & Hp & Hccw & Hoff & Hw).
  pose proof (lookup_lt_Some _ _ _ Ha) as Hlt.
  set (w1 := constructed r0 (_category a) w) in *.
  set (w2 := constructed r1 (default GARDEN nc) w1) in *.
  assert (areas w2 !! length (areas w)
          = Some {| _polygon := r0; _category := _category a;
                    _sub_areas := length (lists w); _id := _last_id w + 1 |})
    as Hfirst by apply constructed_old, constructed_new.
  assert (areas w2 !! S (length (areas w))
          = Some {| _polygon := r1; _category := default GARDEN nc;
                    _sub_areas := S (length (lists w));
                    _id := _last_id w + 1 + 1 |}) as Hsecond.
  { rewrite <- (constructed_length r0 (_category a) w).
    unfold w2. rewrite constructed_new. do 2 f_equal.
    simpl. rewrite length_app. simpl. lia. }
  assert (areas w2 !! self = Some a) as Hself
    by by do 2 apply constructed_old.
  assert (forall l xs, lists w !! l = Some xs -> lists w2 !! l = Some xs)
    as Hlists by (intros; by do 2 apply constructed_lists_old).
  simpl in Hw. unfold hands_over.
  destruct (default true inplace); destruct Hw as [-> ->].
  - exists r0, r1, {| _polygon := _polygon a; _category := _category a;
                      _sub_areas := length (lists w2); _id := _id a |}.
    assert (areas (installed self a [length (areas w); S (length (areas w))] w2)
              !! self
            = Some {| _polygon := _polygon a; _category := _category a;
                      _sub_areas := length (lists w2); _id := _id a |})
      as Hb.
    { apply installed_self. unfold w2, w1. rewrite !constructed_length. lia. }
    cbv zeta. repeat split; try done.
    + rewrite installed_other by lia. exact Hfirst.
    + rewrite installed_other by lia. exact Hsecond.
    + eexists. split; [exact Hb|]. apply installed_list.
    + simpl. apply lookup_ge_None_2. rewrite !length_app. simpl. lia.
    + intros l xs Hl. apply installed_lists_old. by apply Hlists.
  - exists r0, r1, a. simpl. repeat split; try done.
Qed.


(** The call completes as soon as lines 125-177 leave two pieces or more,
    and this is the world it leaves. *)
Lemma split_completes (fuel : nat) (self : ref) (percentage direction : float)
    (inplace : option bool) (nc : option Category) (w : World) (a : Area)
    (res : list Polygon) (r0 r1 : Polygon) :
  areas w !! self = Some a ->
  gtb percentage 0 = true ->
  split_pieces fuel self percentage direction w = Done res w ->
  res !! 0%nat = Some r0 ->
  res !! 1%nat = Some r1 ->
  split fuel self percentage direction inplace nc w
  = if default true inplace
    then Done None
           (installed self a [length (areas w); S (length (areas w))]
              (constructed r1 (default GARDEN nc)
                 (constructed r0 (_category a) w)))
    else Done (Some (length (areas w), S (length (areas w))))
           (constructed r1 (default GARDEN nc)
              (constructed r0 (_category a) w)).
Proof.
  intros Ha Hp Hpieces Hr0 Hr1. unfold split, assert_. rewrite Hp.
  rewrite (bind_Done _ _ w tt w) by reflexivity.
  rewrite (bind_Done _ _ w res w Hpieces).
  rewrite (materialize_eq _ _ _ _ _ _ Ha).
  destruct res as [|x [|y rest]]; try discriminate.
  simpl in Hr0, Hr1. injection Hr0 as ->. injection Hr1 as ->.
  reflexivity.
Qed.

(** The world of a completed call, looked up. *)
Lemma completed_view (self : ref) (a : Area) (r0 r1 : Polygon) (c : Category)
    (inplace : bool) (w : World) :
  areas w !! self = Some a ->
  let first := length (areas w) in
  let w2 := constructed r1 c (constructed r0 (_category a) w) in
  let w' := if inplace then installed self a [first; S first] w2 else w2 in
  exists b : Area,
    areas w' !! first
      = Some {| _polygon := r0; _category := _category a;
                _sub_areas := length (lists w); _id := _last_id w + 1 |} /\
    areas w' !! S first
      = Some {| _polygon := r1; _category := c;
                _sub_areas := S (length (lists w));
                _id := _last_id w + 1 + 1 |} /\
    areas w' !! self = Some b /\
    _polygon b = _polygon a /\ _category b = _category a /\ _id b = _id a /\
    (forall l xs, lists w !! l = Some xs -> lists w' !! l = Some xs) /\
    (if inplace
     then lists w !! _sub_areas b = None /\
          lists w' !! _sub_areas b = Some [first; S first]
     else _sub_areas b = _sub_areas a).
Proof.
  intros Ha first w2 w'.
  pose proof (lookup_lt_Some _ _ _ Ha) as Hlt.
  set (w1 := constructed r0 (_category a) w) in *.
  assert (areas w2 !! first
          = Some {| _polygon := r0; _category := _category a;
                    _sub_areas := length (lists w); _id := _last_id w + 1 |})
    as Hfirst by apply constructed_old, constructed_new.
  assert (areas w2 !! S first
          = Some {| _polygon := r1; _category := c;
                    _sub_areas := S (length (lists w));
                    _id := _last_id w + 1 + 1 |}) as Hsecond.
  { unfold first. rewrite <- (constructed_length r0 (_category a) w).
    unfold w2. rewrite constructed_new. do 2 f_equal.
    simpl. rewrite length_app. simpl. lia. }
  assert (areas w2 !! self = Some a) as Hself
    by by do 2 apply constructed_old.
  assert (forall l xs, lists w !! l = Some xs -> lists w2 !! l = Some xs)
    as Hlists by (intros; by do 2 apply constructed_lists_old).
  unfold w'. destruct inplace.
  - exists {| _polygon := _polygon a; _category := _category a;
              _sub_areas := length (lists w2); _id := _id a |}.
    assert (areas (installed self a [first; S first] w2) !! self
            = Some {| _polygon := _polygon a; _category := _category a;
                      _sub_areas := length (lists w2); _id := _id a |})
      as Hb.
    { apply installed_self. unfold w2, w1. rewrite !constructed_length. lia. }
    split; [rewrite installed_other by (unfold first; lia); exact Hfirst|].
    split; [rewrite installed_other by (unfold first; lia); exact Hsecond|].
    split; [exact Hb|]. simpl _polygon. simpl _category. simpl _id.
    split; [done|]. split; [done|]. split; [done|].
    split; [intros l xs Hl; apply installed_lists_old; by apply Hlists|].
    simpl _sub_areas.
    split; [|exact (installed_list self a [first; S first] w2)].
    apply lookup_ge_None_2. simpl. rewrite !length_app. simpl. lia.
  - exists a. repeat split; try done.
Qed.


(** C9: whatever [split] does, returning or raising, the category and the
    id of [self] are the ones it had; and when lines 125-177 leave two
    pieces or more, the call completes with two new areas, the first built
    from [res[0]] with the category of [self] and the second from [res[1]]
    with [new_category], which is [GARDEN] when omitted. *)
Theorem split_keeps_category_and_id (fuel : nat) (self : ref)
    (percentage direction : float) (inplace : option bool)
    (nc : option Category) (w w' : World) (a : Area) :
  areas w !! self = Some a ->
  final_world (split fuel self percentage direction inplace nc w) = Some w' ->
  (exists b, areas w' !! self = Some b /\
             _category b = _category a /\ _id b = _id a) /\
  (forall (res : list Polygon) (r0 r1 : Polygon),
     gtb percentage 0 = true ->
     split_pieces fuel self percentage direction w = Done res w ->
     res !! 0%nat = Some r0 ->
     res !! 1%nat = Some r1 ->
     exists (v : option (ref * ref)) (fa sa : Area),
       split fuel self percentage direction inplace nc w = Done v w' /\
       hands_over self (default true inplace) v w'
                  (length (areas w)) (S (length (areas w))) /\
       areas w' !! length (areas w) = Some fa /\
       areas w' !! S (length (areas w)) = Some sa /\
       _polygon fa = r0 /\ _category fa = _category a /\
       _polygon sa = r1 /\
       _category sa = match nc with Some c => c | None => GARDEN end).
Proof.
  intros Ha Hw. split.
  - destruct (split fuel self percentage direction inplace nc w)
      as [v w1|e w1| |] eqn:Hs; simpl in Hw; try discriminate.
    + injection Hw as ->.
      destruct (split_done_view _ _ _ _ _ _ _ _ _ _ Ha Hs)
        as (r0 & r1 & b & _ & _ & _ & _ & _ & Hb & _ & Hcat & Hid & _).
      by exists b.
    + injection Hw as ->. revert Hs.
      unfold split, assert_.
      destruct (gtb percentage 0).
      2:{ intros [= _ <-]. by exists a. }
      unfold mbind at 1, M_bind at 1. unfold mret, M_ret.
      unfold mbind, M_bind.
      pose proof (unchanged_split_pieces fuel self percentage direction w)
        as Hpieces.
      destruct (split_pieces _ _ _ _ w) as [res w1|e1 w1| |]; try discriminate.
      * destruct Hpieces as [-> _].
        rewrite (materialize_eq _ _ _ _ _ _ Ha).
        destruct res as [|r0 [|r1 rest]].
        -- intros [= _ <-]. by exists a.
        -- intros [= _ <-]. exists a. split; [|done].
           by apply constructed_old.
        -- simpl. destruct (default true inplace); discriminate.
      * simpl in Hpieces. subst w1. intros [= _ <-]. by exists a.
  - intros res r0 r1 Hp Hpieces Hr0 Hr1.
    pose proof (split_completes fuel self percentage direction inplace nc w a
                  res r0 r1 Ha Hp Hpieces Hr0 Hr1) as Hs.
    destruct (completed_view self a r0 r1 (default GARDEN nc)
                (default true inplace) w Ha)
      as (b & Hfirst & Hsecond & Hb & _ & _ & _ & _ & Hsub).
    rewrite Hs in Hw. unfold hands_over.
    destruct (default true inplace); simpl in Hw; injection Hw as <-;
      eexists _, _, _; (split; [exact Hs|]).
    + split; [split; [done|]; exists b; split; [exact Hb|apply Hsub]|].
      split; [exact Hfirst|]. split; [exact Hsecond|].
      simpl. repeat split; by destruct nc.
    + split; [done|].
      split; [exact Hfirst|]. split; [exact Hsecond|].
      simpl. repeat split; by destruct nc.
Qed.

Lemma bind_Raised {A B} (m : M A) (f : A -> M B) (w : World) (e : exn) (w1 : World) :
  m w = Raised e w1 -> (m ≫= f) w = Raised e w1.
Proof. unfold mbind, M_bind. by intros ->. Qed.

Lemma polygon_Done (self : ref) (w : World) (a : Area) :
  areas w !! self = Some a -> polygon self w = Done (_polygon a) w.
Proof. intros Ha. unfold polygon, load, mbind, M_bind. by rewrite Ha. Qed.

(** C2, as the code has it: on a polygon whose exterior ring is not
    counter-clockwise the assignment to the read-only property [polygon]
    raises [AttributeError]; the polygon is not reversed and the algorithm
    does not proceed. *)
Theorem split_clockwise_raises (fuel : nat) (self : ref)
    (percentage direction : float) (inplace : option bool)
    (nc : option Category) (w : World) (a : Area) :
  areas w !! self = Some a ->
  is_ccw (_polygon a) = false ->
  gtb percentage 0 = true ->
  split fuel self percentage direction inplace nc w = Raised AttributeError w.
Proof.
  intros Ha Hcw Hp. unfold split, assert_. rewrite Hp.
  rewrite (bind_Done _ _ w tt w) by reflexivity.
  apply bind_Raised. unfold split_pieces.
  rewrite (bind_Done _ _ w _ w (polygon_Done _ _ _ Ha)).
  apply bind_Raised. rewrite Hcw. simpl.
  rewrite (bind_Done _ _ w _ w (polygon_Done _ _ _ Ha)).
  reflexivity.
Qed.

(** C3, amended: the check of line 124 is [percentage > 0] and nothing
    else.  [split] raises [AssertionError] there exactly when that
    comparison is false, and otherwise goes on with lines 125-183.  A
    percentage of 0 raises; every percentage strictly between 0 and 1
    passes the check, and so does every percentage from 1 upwards. *)
Theorem split_precondition (fuel : nat) (self : ref)
    (percentage direction : float) (inplace : option bool)
    (nc : option Category) (w : World) :
  split fuel self percentage direction inplace nc w
  = (if gtb percentage 0
     then (res ← split_pieces fuel self percentage direction;
           materialize self res (default true inplace) (default GARDEN nc)) w
     else Raised AssertionError w) /\
  (assert_ (gtb percentage 0) w = Raised AssertionError w
   <-> gtb percentage 0 = false) /\
  split fuel self 0 direction inplace nc w = Raised AssertionError w /\
  (PrimFloat.ltb 0 percentage = true -> PrimFloat.ltb percentage 1 = true ->
   assert_ (gtb percentage 0) w = Done tt w) /\
  (PrimFloat.leb 1 percentage = true -> assert_ (gtb percentage 0) w = Done tt w).
Proof.
  split; [|split; [|split; [|split]]].
  - unfold split, assert_. by destruct (gtb percentage 0).
  - unfold assert_. destruct (gtb percentage 0); split; intros; done.
  - reflexivity.
  - intros H0 _. unfold assert_, gtb. by rewrite H0.
  - intros H1. unfold assert_, gtb.
    replace (PrimFloat.ltb 0 percentage) with true; [done|].
    symmetry. revert H1.
    rewrite FloatAxioms.leb_spec, FloatAxioms.ltb_spec.
    unfold SFleb, SFltb.
    change (Prim2SF 1) with (S754_finite false 4503599627370496 (-52)).
    change (Prim2SF 0) with (S754_zero false).
    destruct (Prim2SF percentage) as [s|s| |s m e]; simpl; try done.
    + by destruct s.
    + by destruct s.
Qed.

(** C4: in an iteration whose cut yields two pieces, lines 169-173 put
    first the piece that is not farther from the hit point than the other:
    the second of the cut when the first is farther, the first otherwise.
    The loop goes on with the two in that order, and it ends with them in
    that order when the one put first meets the tolerance. *)
Theorem bisect_orders_pieces (fuel : nat) (self : ref) (pt : BaseGeometry)
    (pt1 pt2 directory orth : point) (diameter house_area width dw : float)
    (res : list Polygon) (w : World) (s : Area) (r x y : Polygon) :
  areas w !! self = Some s ->
  res !! 0%nat = Some r ->
  off_target house_area r = true ->
  ops_split (_polygon s) (cut_line pt1 pt2 directory orth diameter width)
    = [x; y] ->
  let swap := gtb (distance pt x) (distance pt y) in
  let first := if swap then y else x in
  let second := if swap then x else y in
  gtb (distance pt first) (distance pt second) = false /\
  order_pieces pt [x; y] w = Done [first; second] w /\
  bisect (S fuel) self pt pt1 pt2 directory orth diameter house_area
         width dw res w
  = bisect fuel self pt pt1 pt2 directory orth diameter house_area
           (if gtb (area first) house_area
            then width - dw / 2 else width + dw / 2)%float
           (dw / 2)%float [first; second] w /\
  (off_target house_area first = false ->
   bisect (S (S fuel)) self pt pt1 pt2 directory orth diameter house_area
          width dw res w
   = Done [first; second] w).
Proof.
  intros Hs Hr Hoff Hcut swap first second.
  assert (order_pieces pt [x; y] w = Done [first; second] w) as Horder.
  { unfold order_pieces, mbind, M_bind, index. simpl.
    unfold first, second, swap. by destruct (gtb _ _). }
  assert (forall n,
            bisect (S n) self pt pt1 pt2 directory orth diameter house_area
                   width dw res w
            = bisect n self pt pt1 pt2 directory orth diameter house_area
                     (if gtb (area first) house_area
                      then width - dw / 2 else width + dw / 2)%float
                     (dw / 2)%float [first; second] w) as Hstep.
  { intros n. simpl.
    rewrite (bind_Done _ _ w r w) by (unfold index; by rewrite Hr).
    rewrite Hoff.
    rewrite (bind_Done _ _ w _ w (polygon_Done _ _ _ Hs)).
    rewrite Hcut. simpl.
    rewrite (bind_Done _ _ w _ w Horder).
    rewrite (bind_Done _ _ w first w) by reflexivity.
    by destruct (gtb (area first) house_area). }
  split; [|split; [exact Horder|split; [apply Hstep|]]].
  - unfold first, second, swap.
    destruct (gtb (distance pt x) (distance pt y)) eqn:Hd; [|exact Hd].
    apply ltb_asym, Hd.
  - intros Hfirst. rewrite (Hstep (S fuel)). simpl.
    rewrite (bind_Done _ _ w first w) by reflexivity.
    by rewrite Hfirst.
Qed.


End SplitFacts.

(** ** Identifiers *)

Section Identifiers.
Context `{L : Lib}.

Lemma ok_initial : world_ok initial_world.
Proof. split; simpl; intros; try done; by rewrite lookup_nil in *. Qed.

(** Appending an area whose id is the next one keeps the invariant. *)
Lemma ok_append (w : World) (a : Area) (ls : list (list ref)) :
  world_ok w -> _id a = _last_id w + 1 ->
  world_ok {| _last_id := _last_id w + 1;
              members := members w ++ [length (areas w)];
              areas := areas w ++ [a];
              lists := ls |}.
Proof.
  intros [Hord Hbnd Hmem] Hid. split; simpl.
  - intros i j x y Hij Hx Hy.
    apply lookup_app_Some in Hy as [Hy|[Hlen Hy]].
    + pose proof (lookup_lt_Some _ _ _ Hy) as Hj.
      rewrite lookup_app_l in Hx by lia. eauto.
    + apply list_lookup_singleton_Some in Hy as [Hj <-].
      apply lookup_app_Some in Hx as [Hx|[Hlen' Hx]].
      * apply Hbnd in Hx. lia.
      * apply list_lookup_singleton_Some in Hx as [Hx _]. lia.
  - intros i x Hx.
    apply lookup_app_Some in Hx as [Hx|[_ Hx]].
    + apply Hbnd in Hx. lia.
    + apply list_lookup_singleton_Some in Hx as [_ <-]. lia.
  - rewrite length_app, Hmem. simpl.
    rewrite Nat.add_1_r, seq_S. reflexivity.
Qed.

Lemma ok_init (p : Polygon) (c : Category) (sa : option lref)
    (w w' : World) (self : ref) :
  world_ok w -> __init__ p c sa w = Done self w' -> world_ok w'.
Proof.
  intros Hok. rewrite init_eq. intros [= _ <-]. by apply ok_append.
Qed.

Lemma ok_constructed (p : Polygon) (c : Category) (w : World) :
  world_ok w -> world_ok (constructed p c w).
Proof. intros Hok. by apply ok_append. Qed.

Lemma ok_lists (w : World) (ls : list (list ref)) :
  world_ok w ->
  world_ok {| _last_id := _last_id w; members := members w;
              areas := areas w; lists := ls |}.
Proof. intros [Hord Hbnd Hmem]. by split. Qed.

Lemma ok_installed (self : ref) (a : Area) (xs : list ref) (w : World) :
  areas w !! self = Some a -> world_ok w -> world_ok (installed self a xs w).
Proof.
  intros Ha [Hord Hbnd Hmem].
  assert (forall i x, areas (installed self a xs w) !! i = Some x ->
                      exists x', areas w !! i = Some x' /\ _id x' = _id x)
    as Hsame.
  { intros i x. simpl. destruct (decide (i = self)) as [->|Hne].
    - rewrite list_lookup_insert_eq by (by eapply lookup_lt_Some).
      intros [= <-]. by exists a.
    - rewrite list_lookup_insert_ne by done. intros Hx. by exists x. }
  split.
  - intros i j x y Hij Hx Hy.
    apply Hsame in Hx as (x' & Hx & <-). apply Hsame in Hy as (y' & Hy & <-).
    eauto.
  - intros i x Hx. apply Hsame in Hx as (x' & Hx & <-). simpl. eauto.
  - simpl. by rewrite length_insert.
Qed.

(** The worlds [split] can leave. *)
Lemma split_final (fuel : nat) (self : ref) (percentage direction : float)
    (inplace : option bool) (nc : option Category) (w w' : World) :
  final_world (split fuel self percentage direction inplace nc w) = Some w' ->
  w' = w \/
  exists a r0,
    areas w !! self = Some a /\
    (w' = constructed r0 (_category a) w \/
     exists r1 c,
       w' = constructed r1 c (constructed r0 (_category a) w) \/
       exists xs,
         w' = installed self a xs
                        (constructed r1 c (constructed r0 (_category a) w))).
Proof.
  unfold split, assert_.
  destruct (gtb percentage 0); [|intros [= <-]; by left].
  unfold mbind at 1, M_bind at 1. unfold mret, M_ret.
  unfold mbind, M_bind.
  pose proof (unchanged_split_pieces fuel self percentage direction w)
    as Hpieces.
  destruct (split_pieces _ _ _ _ w) as [res w1|e w1| |]; try discriminate.
  - destruct Hpieces as [-> (a & r & Ha & _)].
    rewrite (materialize_eq _ _ _ _ _ _ Ha).
    destruct res as [|r0 [|r1 rest]].
    + intros [= <-]. by left.
    + intros [= <-]. right. exists a, r0. split; [done|]. by left.
    + simpl. right. exists a, r0. split; [done|]. right.
      exists r1, (default GARDEN nc).
      destruct (default true inplace); injection H as <-; eauto.
  - simpl in Hpieces. subst w1. intros [= <-]. by left.
Qed.

Lemma ok_split (fuel : nat) (self : ref) (percentage direction : float)
    (inplace : option bool) (nc : option Category) (w w' : World) :
  world_ok w ->
  final_world (split fuel self percentage direction inplace nc w) = Some w' ->
  world_ok w'.
Proof.
  intros Hok Hs.
  apply split_final in Hs
    as [->|(a & r0 & Ha & [->|(r1 & c & [->|(xs & ->)])])]; try done.
  - by apply ok_constructed.
  - by do 2 apply ok_constructed.
  - apply ok_installed; [by do 2 apply constructed_old|].
    by do 2 apply ok_constructed.
Qed.

Lemma ok_components (self : ref) (l : lref) (w w' : World) :
  world_ok w -> components self w = Done l w' -> world_ok w'.
Proof.
  intros Hok. unfold components, load, load_list, mbind, M_bind.
  destruct (areas w !! self); [|done].
  destruct (lists w !! _); [|done].
  destruct (0 <? length _)%nat.
  - by intros [= _ <-].
  - intros [= _ <-]. by apply ok_lists.
Qed.

Lemma reachable_ok (w : World) : reachable w -> world_ok w.
Proof.
  induction 1 as [|w xs l w' _ IH Hl|w p c sa self w' _ IH _ Hi
                  |w fuel self pc d ip nc w' _ IH Hs|w self l w' _ IH Hc].
  - apply ok_initial.
  - injection Hl as _ <-. by apply ok_lists.
  - by eapply ok_init.
  - by eapply ok_split.
  - by eapply ok_components.
Qed.

(** C8: in every reachable world, an area constructed before another one
    (its reference is smaller; [Area.members] lists the references in that
    order) has the smaller id, and no two areas have the same id. *)
Theorem ids_strictly_increasing (w : World) :
  reachable w ->
  (forall (r s : ref) (a b : Area),
     areas w !! r = Some a -> areas w !! s = Some b ->
     (r < s)%nat -> _id a < _id b) /\
  (forall (r s : ref) (a b : Area),
     areas w !! r = Some a -> areas w !! s = Some b ->
     _id a = _id b -> r = s) /\
  members w = seq 0 (length (areas w)).
Proof.
  intros Hreach. destruct (reachable_ok w Hreach) as [Hord Hbnd Hmem].
  split; [|split].
  - intros r s a b Ha Hb Hlt. eauto.
  - intros r s a b Ha Hb Hid.
    destruct (Nat.lt_trichotomy r s) as [Hlt|[->|Hgt]]; [|done|].
    + pose proof (Hord _ _ _ _ Hlt Ha Hb). lia.
    + pose proof (Hord _ _ _ _ Hgt Hb Ha). lia.
  - exact Hmem.
Qed.

End Identifiers.

(** ** The examples, run *)

Module Runs.
Import Plane Examples.
Local Open Scope float_scope.


Lemma split_clockwise_raises_witness :
  split 50 0%nat 0.25 0 (Some false) None world_cw
  = Raised AttributeError world_cw.
Proof.
  apply (split_clockwise_raises 50 0%nat 0.25 0 (Some false) None world_cw
           surf_cw); vm_compute; reflexivity.
Defined.

(** C3, as stated, fails at [percentage = 2]: the percentage is outside
    (0, 1), the check of line 124 lets it through, and what [split] raises
    later is an [IndexError]. *)
Lemma split_percentage_two_passes_check :
  (2 <? 1) = false /\
  assert_ (gtb 2 0) world_surf = Done tt world_surf /\
  split 50 0%nat 2 0 None None world_surf = Raised IndexError world_surf.
Proof. vm_compute. repeat split. Qed.

Lemma bisect_orders_pieces_witness :
  gtb (distance (Lib:=lib) hit north_10) (distance (Lib:=lib) hit south_30)
  = false /\
  order_pieces (L:=lib) hit [south_30; north_10] world_surf
  = Done [north_10; south_30] world_surf /\
  bisect (L:=lib) 2 0%nat hit (20, 40) (0, 40) (-1, 0) (-0, -1) diameter 200
         10 (diameter / 2) [rectangle] world_surf
  = Done [north_10; south_30] world_surf.
Proof.
  destruct (bisect_orders_pieces (L:=lib) 0 0%nat hit (20, 40) (0, 40)
              (-1, 0) (-0, -1) diameter 200 10 (diameter / 2) [rectangle]
              world_surf surf rectangle south_30 north_10)
    as (H1 & H2 & _ & H4); [vm_compute; reflexivity..|].
  split; [exact H1|]. split; [exact H2|].
  apply H4. vm_compute. reflexivity.
Defined.





Lemma split_keeps_category_and_id_witness :
  (exists b, areas world_inplace !! 0%nat = Some b /\
             _category b = HOUSE /\ _id b = 1%Z) /\
  (exists (v : option (ref * ref)) (fa sa : Area),
     split 50 0%nat 0.25 0 None None world_surf = Done v world_inplace /\
     hands_over 0%nat true v world_inplace 1%nat 2%nat /\
     areas world_inplace !! 1%nat = Some fa /\
     areas world_inplace !! 2%nat = Some sa /\
     _polygon fa = final_north /\ _category fa = HOUSE /\
     _polygon sa = final_south /\ _category sa = GARDEN).
Proof.
  destruct (split_keeps_category_and_id 50 0%nat 0.25 0 None None world_surf
              world_inplace surf) as [H1 H2]; [vm_compute; reflexivity..|].
  split; [exact H1|].
  apply (H2 final_pieces final_north final_south); vm_compute; reflexivity.
Defined.

Lemma components_spec_witness :
  exists (l : lref) (w' : World) (ys : list ref),
    components 0%nat world_inplace = Done l w' /\
    lists w' !! l = Some ys /\
    ys <> [] /\
    areas w' = areas world_inplace /\
    ([1%nat; 2%nat] <> [] -> l = 3%nat /\ ys = [1%nat; 2%nat] /\ w' = world_inplace) /\
    ([1%nat; 2%nat] = [] -> ys = [0%nat]).
Proof.
  apply (components_spec world_inplace 0%nat surf_inplace [1%nat; 2%nat]);
    vm_compute; reflexivity.
Defined.

Lemma ids_strictly_increasing_witness :
  (forall (r s : ref) (a b : Area),
     areas world_returned !! r = Some a -> areas world_returned !! s = Some b ->
     (r < s)%nat -> (_id a < _id b)%Z) /\
  (forall (r s : ref) (a b : Area),
     areas world_returned !! r = Some a -> areas world_returned !! s = Some b ->
     _id a = _id b -> r = s) /\
  members world_returned = seq 0 (length (areas world_returned)).
Proof.
  apply (ids_strictly_increasing world_returned).
  apply (reach_split world_surf 50 0%nat 0.25 0 (Some false) None).
  - apply (reach_init (L:=lib) initial_world rectangle HOUSE None 0%nat).
    + apply reach_initial.
    + intros l Hl. discriminate.
    + vm_compute. reflexivity.
  - vm_compute. reflexivity.
Defined.

Lemma init_no_validation_witness :
  exists (self : ref) (w' : World) (s : Area),
    __init__ (L:=lib) [] UNDEFINED None world_surf = Done self w' /\
    areas world_surf !! self = None /\
    areas w' !! self = Some s /\
    _polygon (L:=lib) s = [] /\ _category s = UNDEFINED /\
    members w' = members world_surf ++ [self] /\
    lists world_surf !! _sub_areas s = None /\
    lists w' !! _sub_areas s = Some [] /\
    ((forall r b, areas world_surf !! r = Some b ->
                  is_Some (lists world_surf !! _sub_areas b)) ->
     forall r b, r <> self -> areas w' !! r = Some b ->
                 _sub_areas b <> _sub_areas s).
Proof. apply (init_no_validation (L:=lib) world_surf [] UNDEFINED). Defined.

End Runs.

(** ** The taxonomy *)

Section Taxonomy.

(** X1: no two categories have the same value, so the enumeration has no
    aliases. *)
Theorem Category_value_injective (c1 c2 : Category) :
  Category_value c1 = Category_value c2 -> c1 = c2.
Proof. destruct c1, c2; simpl; intros H; first [reflexivity | discriminate H]. Qed.

End Taxonomy.

(** ** The life of an area *)

Section LifecycleFacts.
Context `{L : Lib}.

Lemma dense_initial : ids_dense initial_world.
Proof. split; simpl; [done|]. intros r a H. by rewrite lookup_nil in H. Qed.

Lemma dense_append (w : World) (a : Area) (ms : list ref)
    (ls : list (list ref)) :
  ids_dense w -> _id a = _last_id w + 1 ->
  ids_dense {| _last_id := _last_id w + 1; members := ms;
               areas := areas w ++ [a]; lists := ls |}.
Proof.
  intros [Hlast Hid] Ha. split; simpl.
  - rewrite length_app. simpl. lia.
  - intros r b Hb. apply lookup_app_Some in Hb as [Hb|[Hlen Hb]]; [eauto|].
    apply list_lookup_singleton_Some in Hb as [Hr <-]. lia.
Qed.

Lemma dense_constructed (p : Polygon) (c : Category) (w : World) :
  ids_dense w -> ids_dense (constructed p c w).
Proof. intros H. by apply dense_append. Qed.

Lemma dense_lists (w : World) (ls : list (list ref)) :
  ids_dense w ->
  ids_dense {| _last_id := _last_id w; members := members w;
               areas := areas w; lists := ls |}.
Proof. intros [Hlast Hid]. by split. Qed.

Lemma dense_installed (self : ref) (a : Area) (xs : list ref) (w : World) :
  areas w !! self = Some a -> ids_dense w -> ids_dense (installed self a xs w).
Proof.
  intros Ha [Hlast Hid]. split; simpl.
  - by rewrite length_insert.
  - intros r b. destruct (decide (r = self)) as [->|Hne].
    + rewrite list_lookup_insert_eq by (by eapply lookup_lt_Some).
      intros [= <-]. simpl. eauto.
    + rewrite list_lookup_insert_ne by done. eauto.
Qed.

Lemma reachable_dense (w : World) : reachable w -> ids_dense w.
Proof.
  induction 1 as [|w xs l w' _ IH Hl|w p c sa self w' _ IH _ Hi
                  |w fuel self pc d ip nc w' _ IH Hs|w self l w' _ IH Hc].
  - apply dense_initial.
  - injection Hl as _ <-. by apply dense_lists.
  - rewrite init_eq in Hi. injection Hi as _ <-. by apply dense_append.
  - apply split_final in Hs
      as [->|(a & r0 & Ha & [->|(r1 & c & [->|(xs & ->)])])]; try done.
    + by apply dense_constructed.
    + by do 2 apply dense_constructed.
    + apply dense_installed; [by do 2 apply constructed_old|].
      by do 2 apply dense_constructed.
  - revert Hc. unfold components, load, load_list, mbind, M_bind.
    destruct (areas w !! self); [|done].
    destruct (lists w !! _); [|done].
    destruct (0 <? length _)%nat.
    + by intros [= _ <-].
    + intros [= _ <-]. by apply dense_lists.
Qed.

(** X2: ids are the positive integers in construction order.  In every
    reachable world the area constructed k-th (from 1) has id k, and
    [Area._last_id] is the number of areas constructed so far; areas
    constructed inside [split] count like any other. *)
Theorem ids_count_from_one (w : World) (r : ref) (a : Area) :
  reachable w ->
  areas w !! r = Some a ->
  _id a = Z.of_nat r + 1 /\
  1 <= _id a <= _last_id w /\
  _last_id w = Z.of_nat (length (areas w)).
Proof.
  intros Hreach Ha. destruct (reachable_dense w Hreach) as [Hlast Hid].
  pose proof (lookup_lt_Some _ _ _ Ha). rewrite (Hid r a Ha). lia.
Qed.

(** X3: what the accessors of a new area return.  For any polygon, category
    and [sub_areas] argument, [polygon] and [category] give back the
    constructor's arguments, and [identity] is the former [_last_id] plus
    one, which is the new [_last_id]. *)
Theorem init_then_accessors (w : World) (p : Polygon) (c : Category)
    (sa : option lref) :
  exists (self : ref) (w' : World),
    __init__ p c sa w = Done self w' /\
    polygon self w' = Done p w' /\
    category self w' = Done c w' /\
    identity self w' = Done (_last_id w + 1) w' /\
    _last_id w' = _last_id w + 1.
Proof.
  rewrite init_eq. eexists _, _. split; [reflexivity|].
  unfold polygon, category, identity, load, mbind, M_bind. simpl.
  rewrite lookup_app_r, Nat.sub_diag by lia. simpl. done.
Qed.

(** X4: the constructor keeps the list it is given, without copying it.
    Constructed with an existing non-empty list, an area returns that very
    list object from [components], and no list object is created on the
    way; two areas constructed with the same list share it. *)
Theorem init_keeps_given_list (w : World) (p q : Polygon) (c d : Category)
    (l : lref) (xs : list ref) :
  lists w !! l = Some xs ->
  xs <> [] ->
  exists (a b : ref) (w1 w2 : World),
    __init__ p c (Some l) w = Done a w1 /\
    __init__ q d (Some l) w1 = Done b w2 /\
    a <> b /\
    lists w2 = lists w /\
    components a w2 = Done l w2 /\
    components b w2 = Done l w2.
Proof.
  intros Hl Hxs. rewrite init_eq. eexists _, _, _, _.
  split; [reflexivity|]. rewrite init_eq. split; [reflexivity|]. simpl.
  split; [rewrite length_app; simpl; lia|]. split; [reflexivity|].
  set (A := {| _polygon := p; _category := c; _sub_areas := l;
               _id := _last_id w + 1 |}).
  set (B := {| _polygon := q; _category := d; _sub_areas := l;
               _id := _last_id w + 1 + 1 |}).
  assert (((areas w ++ [A]) ++ [B]) !! (length (areas w) : ref) = Some A) as HA.
  { apply lookup_app_l_Some. by rewrite lookup_app_r, Nat.sub_diag by lia. }
  assert (((areas w ++ [A]) ++ [B]) !! (length (areas w ++ [A]) : ref) = Some B) as HB.
  { by rewrite lookup_app_r, Nat.sub_diag by lia. }
  unfold components, load, load_list, mbind, M_bind. simpl.
  rewrite HA, HB. simpl. rewrite Hl.
  destruct xs; [done|]. simpl. done.
Qed.

(** X5: on an area without sub-areas every call of [components] builds a
    new one-element list; the list under [_sub_areas] is another object and
    stays empty, so nothing done to a returned list reaches the area. *)
Theorem components_unsplit_fresh (w : World) (self : ref) (a : Area) :
  areas w !! self = Some a ->
  lists w !! _sub_areas a = Some [] ->
  exists (l1 l2 : lref) (w1 w2 : World),
    components self w = Done l1 w1 /\
    components self w1 = Done l2 w2 /\
    l1 <> l2 /\ l1 <> _sub_areas a /\ l2 <> _sub_areas a /\
    lists w2 !! l1 = Some [self] /\
    lists w2 !! l2 = Some [self] /\
    lists w2 !! _sub_areas a = Some [] /\
    areas w2 = areas w.
Proof.
  intros Ha Hl. pose proof (lookup_lt_Some _ _ _ Hl) as Hlt.
  exists (length (lists w)), (S (length (lists w))).
  eexists _, _.
  unfold components, load, load_list, mbind, M_bind. simpl.
  rewrite Ha, Hl. simpl. split; [reflexivity|]. simpl.
  rewrite Ha. simpl. rewrite (lookup_app_l_Some _ _ _ _ Hl). simpl.
  split; [unfold new_list; simpl; by rewrite length_app, Nat.add_1_r|]. simpl.
  split; [lia|]. split; [lia|]. split; [lia|].
  split; [|split; [|split; [|done]]].
  - apply lookup_app_l_Some. by rewrite lookup_app_r, Nat.sub_diag by lia.
  - rewrite lookup_app_r by (rewrite length_app; simpl; lia).
    rewrite length_app, Nat.add_1_r, Nat.sub_diag. done.
  - by do 2 apply lookup_app_l_Some.
Qed.

Lemma list_remove_None (x : ref) (l : list ref) :
  list_remove x l = None <-> (x ∉ l).
Proof.
  induction l as [|y l IH]; simpl.
  - split; [intros _; apply not_elem_of_nil|done].
  - destruct (decide (y = x)) as [->|Hne].
    + split; [done|]. intros H. exfalso. apply H. left.
    + rewrite fmap_None, IH, not_elem_of_cons.
      split; [intros H; split; [congruence|done]|by intros [_ H]].
Qed.

Lemma list_remove_Some (x : ref) (l l' : list ref) :
  list_remove x l = Some l' ->
  exists l1 l2, l = l1 ++ x :: l2 /\ (x ∉ l1) /\ l' = l1 ++ l2.
Proof.
  revert l'. induction l as [|y l IH]; intros l'; simpl; [done|].
  destruct (decide (y = x)) as [->|Hne].
  - intros [= <-]. exists [], l. split; [done|]. split; [|done].
    apply not_elem_of_nil.
  - rewrite fmap_Some. intros (l0 & Hl0 & ->).
    destruct (IH _ Hl0) as (l1 & l2 & -> & Hx & ->).
    exists (y :: l1), l2. split; [done|]. split; [|done].
    rewrite not_elem_of_cons. done.
Qed.

(** X6: [__del__] never raises.  It takes the first occurrence of the area
    out of [Area.members] and leaves everything else as it was: the later
    occurrences if any, the other entries and their order, the areas, the
    lists and [_last_id]; on an area that is not registered it does
    nothing. *)
Theorem del_removes_first (w : World) (self : ref) :
  exists w' : World,
    __del__ self w = Done tt w' /\
    _last_id w' = _last_id w /\ areas w' = areas w /\ lists w' = lists w /\
    (((self ∉ members w) /\ w' = w) \/
     exists l1 l2, members w = l1 ++ self :: l2 /\ (self ∉ l1) /\
                   members w' = l1 ++ l2).
Proof.
  unfold __del__, members_remove.
  destruct (list_remove self (members w)) as [l|] eqn:E.
  - eexists. split; [reflexivity|]. simpl. repeat split.
    right. apply list_remove_Some in E as (l1 & l2 & H1 & H2 & ->). eauto.
  - exists w. repeat split. left. split; [|done]. by apply list_remove_None.
Qed.

(** X7: where no area is registered twice (as in every reachable world),
    an area is no longer registered after [__del__], the registration of
    every other area is untouched, and a second [__del__] changes
    nothing. *)
Theorem del_idempotent (w w' : World) (self : ref) :
  NoDup (members w) ->
  __del__ self w = Done tt w' ->
  (self ∉ members w') /\
  (forall r, r <> self -> (r ∈ members w' <-> r ∈ members w)) /\
  NoDup (members w') /\
  __del__ self w' = Done tt w'.
Proof.
  intros Hnd Hdel.
  destruct (del_removes_first w self)
    as (w1 & Hdel1 & _ & _ & _ & Hmem).
  rewrite Hdel in Hdel1. injection Hdel1 as <-.
  assert ((self ∉ members w') /\
          (forall r, r <> self -> (r ∈ members w' <-> r ∈ members w)) /\
          NoDup (members w')) as (Hnot & Hothers & Hnd').
  { destruct Hmem as [[Hnot ->]|(l1 & l2 & Hw & Hl1 & Hw')]; [done|].
    rewrite Hw in Hnd. rewrite Hw, Hw'.
    apply list.NoDup_app in Hnd as (Hnd1 & Hdisj & Hnd2).
    apply list.NoDup_cons in Hnd2 as [Hl2 Hnd2].
    split; [|split].
    - rewrite elem_of_app. by intros [?|?].
    - intros r Hr. rewrite !elem_of_app, elem_of_cons. tauto.
    - apply list.NoDup_app. split; [done|]. split; [|done].
      intros r Hr1 Hr2. apply (Hdisj r Hr1). by right. }
  split; [done|]. split; [done|]. split; [done|].
  unfold __del__, members_remove.
  by rewrite (proj2 (list_remove_None self (members w')) Hnot).
Qed.

(** X8: the id of a deleted area is not given again.  In a reachable world,
    an area constructed after any [__del__] gets an id greater than the id
    of every area constructed before, the deleted one included. *)
Theorem del_id_not_reused (w w1 w2 : World) (dead self : ref) (p : Polygon)
    (c : Category) (sa : option lref) (r : ref) (b : Area) :
  reachable w ->
  __del__ dead w = Done tt w1 ->
  __init__ p c sa w1 = Done self w2 ->
  areas w !! r = Some b ->
  exists a, areas w2 !! self = Some a /\ _id b < _id a /\ areas w2 !! r = Some b.
Proof.
  intros Hreach Hdel Hinit Hb.
  destruct (reachable_ok w Hreach) as [_ Hbnd _].
  destruct (del_removes_first w dead)
    as (w1' & Hdel1 & Hlast & Hareas & _ & _).
  rewrite Hdel in Hdel1. injection Hdel1 as <-.
  rewrite init_eq in Hinit. injection Hinit as <- <-. simpl.
  rewrite Hareas, Hlast.
  eexists. split; [by rewrite lookup_app_r, Nat.sub_diag by lia|].
  simpl. split; [|by apply lookup_app_l_Some].
  apply Hbnd in Hb. lia.
Qed.

End LifecycleFacts.

(** ** More on the split: what it leaves alone, and how it fails *)

Section SplitMore.
Context `{L : Lib}.

(** X9: [split] never takes anything away.  Whether it returns or raises,
    every other area is what it was, every list that existed is what it
    was, [Area.members] has only grown, by at most two entries at its end,
    and [_last_id] has grown by at most two. *)
Theorem split_frame (fuel : nat) (self : ref) (percentage direction : float)
    (inplace : option bool) (nc : option Category) (w w' : World) :
  final_world (split fuel self percentage direction inplace nc w) = Some w' ->
  (forall r b, r <> self -> areas w !! r = Some b -> areas w' !! r = Some b) /\
  (forall l xs, lists w !! l = Some xs -> lists w' !! l = Some xs) /\
  (exists new, members w' = members w ++ new /\ (length new <= 2)%nat) /\
  _last_id w <= _last_id w' <= _last_id w + 2.
Proof.
  intros Hs.
  apply split_final in Hs
    as [->|(a & r0 & Ha & [->|(r1 & c & [->|(xs & ->)])])].
  - repeat split; try done; try lia.
    exists []. split; [by rewrite app_nil_r|simpl; lia].
  - repeat split; simpl; try lia.
    + intros r b _ Hb. by apply lookup_app_l_Some.
    + intros l xs Hl. by apply lookup_app_l_Some.
    + eexists. split; [reflexivity|]. simpl. lia.
  - repeat split; simpl; try lia.
    + intros r b _ Hb. by do 2 apply lookup_app_l_Some.
    + intros l xs Hl. by do 2 apply lookup_app_l_Some.
    + eexists. split; [by rewrite <- app_assoc|]. simpl. lia.
  - repeat split; simpl; try lia.
    + intros r b Hr Hb. rewrite list_lookup_insert_ne by done.
      by do 2 apply lookup_app_l_Some.
    + intros l ys Hl. by do 3 apply lookup_app_l_Some.
    + eexists. split; [by rewrite <- app_assoc|]. simpl. lia.
Qed.

(** X10: a call that raises has not touched its area.  The world is then
    as it was, except in one case: an [IndexError] raised by [res[1]] on
    line 179, after line 178 has constructed one area, which stays
    registered; its polygon is the only piece, one that met the exit
    condition of the loop. *)
Theorem split_failure (fuel : nat) (self : ref) (percentage direction : float)
    (inplace : option bool) (nc : option Category) (w w' : World) (a : Area)
    (e : exn) :
  areas w !! self = Some a ->
  split fuel self percentage direction inplace nc w = Raised e w' ->
  areas w' !! self = Some a /\
  (w' = w \/
   (e = IndexError /\
    exists r0, off_target (area (_polygon a) * percentage)%float r0 = false /\
               w' = constructed r0 (_category a) w)).
Proof.
  intros Ha. unfold split, assert_.
  destruct (gtb percentage 0).
  2:{ intros [= _ <-]. split; [done|by left]. }
  unfold mbind at 1, M_bind at 1. unfold mret, M_ret.
  unfold mbind, M_bind.
  pose proof (unchanged_split_pieces fuel self percentage direction w)
    as Hpieces.
  destruct (split_pieces _ _ _ _ w) as [res w1|e1 w1| |]; try discriminate.
  - destruct Hpieces as [-> (a' & r & Ha' & _ & Hr & Hoff)].
    assert (a' = a) as -> by congruence.
    rewrite (materialize_eq _ _ _ _ _ _ Ha).
    destruct res as [|r0 [|r1 rest]].
    + intros [= _ <-]. split; [done|by left].
    + intros [= <- <-]. split; [by apply constructed_old|].
      right. split; [done|]. exists r0. split; [|done].
      simpl in Hr. by injection Hr as ->.
    + simpl. destruct (default true inplace); discriminate.
  - simpl in Hpieces. subst w1. intros [= _ <-]. split; [done|by left].
Qed.

Lemma unchanged_self {A} (w : World) (o : outcome A) (Q : A -> Prop) :
  unchanged w o Q -> unchanged w o (fun x => o = Done x w /\ Q x).
Proof. destruct o; simpl; [|done..]. by intros [-> HQ]. Qed.

Ltac read_polygon a Ha :=
  eapply unchanged_bind; [apply unchanged_polygon|];
  let a' := fresh "a" in
  let Ha' := fresh "Ha" in
  intros ? (a' & Ha' & ->);
  assert (a' = a) as -> by congruence; clear Ha'.

(** What lines 125-177 return is what the loop returns, started on the
    polygon itself. *)
Lemma split_pieces_loop (fuel : nat) (self : ref)
    (percentage direction : float) (w : World) :
  unchanged w (split_pieces fuel self percentage direction w)
    (fun res => exists a pt pt1 pt2 directory orth diameter,
       areas w !! self = Some a /\
       bisect fuel self pt pt1 pt2 directory orth diameter
              (area (_polygon a) * percentage)%float
              (diameter / 2)%float (diameter / 2)%float [_polygon a] w
       = Done res w).
Proof.
  unfold split_pieces.
  eapply unchanged_bind; [apply unchanged_polygon|]. intros p (a & Ha & ->).
  eapply (unchanged_bind _ _ _ (fun _ => True)).
  { destruct (is_ccw (_polygon a)); simpl; [done|].
    eapply unchanged_bind; [apply unchanged_polygon|]. intros; done. }
  intros _ _.
  read_polygon a Ha.
  eapply unchanged_bind; [apply unchanged_index|]. intros c2 _.
  eapply unchanged_bind; [apply unchanged_index|]. intros c0 _.
  read_polygon a Ha. read_polygon a Ha.
  eapply unchanged_bind; [apply unchanged_hit_point|]. intros pt _.
  read_polygon a Ha.
  destruct (find_edge _ _ _) as [[pt1 pt2]|]; [|done].
  read_polygon a Ha. read_polygon a Ha.
  eapply unchanged_weaken;
    [apply unchanged_self, unchanged_bisect|].
  intros res [Hres _]. eexists a, _, _, _, _, _, _. split; [done|].
  exact Hres.
Qed.

(** X11: when the polygon already is within the tolerance of the target
    (a polygon of area at most 1, for one), [split] cannot complete.  The
    loop is not entered, [res] is the polygon alone, and [res[1]] raises
    [IndexError] once a copy of the area, same polygon and same category,
    has been constructed and registered; or the call has failed before. *)
Theorem split_within_tolerance_fails (fuel : nat) (self : ref)
    (percentage direction : float) (inplace : option bool)
    (nc : option Category) (w : World) (a : Area) :
  areas w !! self = Some a ->
  off_target (area (_polygon a) * percentage)%float (_polygon a) = false ->
  (forall v w', split fuel self percentage direction inplace nc w <> Done v w') /\
  (forall e w', split fuel self percentage direction inplace nc w = Raised e w' ->
     w' = w \/
     (e = IndexError /\ w' = constructed (_polygon a) (_category a) w)).
Proof.
  intros Ha Hoff.
  assert (forall res, split_pieces fuel self percentage direction w = Done res w ->
                      res = [_polygon a]) as Hres.
  { intros res Hp.
    pose proof (split_pieces_loop fuel self percentage direction w) as Hl.
    rewrite Hp in Hl.
    destruct Hl as [_ (a' & pt & pt1 & pt2 & dr & orth & dm & Ha' & Hb)].
    assert (a' = a) as -> by congruence.
    destruct fuel as [|fuel]; [discriminate|].
    simpl in Hb. unfold mbind, M_bind, index in Hb. simpl in Hb.
    rewrite Hoff in Hb. by injection Hb as <-. }
  unfold split, assert_.
  destruct (gtb percentage 0).
  2:{ split; [done|]. intros e w' [= _ <-]. by left. }
  unfold mbind at 1, M_bind at 1. unfold mret, M_ret.
  unfold mbind, M_bind.
  pose proof (unchanged_split_pieces fuel self percentage direction w)
    as Hpieces.
  destruct (split_pieces _ _ _ _ w) as [res w1|e1 w1| |]; try done.
  - destruct Hpieces as [-> _]. rewrite (Hres res eq_refl).
    rewrite (materialize_eq _ _ _ _ _ _ Ha).
    split; [done|]. intros e w' [= <- <-]. by right.
  - simpl in Hpieces. subst w1.
    split; [done|]. intros e w' [= _ <-]. by left.
Qed.

(** X12: a cut that yields no piece ends the call.  The branch of line 166
    lowers [width] and continues, and the loop condition then reads
    [res[0]] of the empty result: [IndexError]. *)
Theorem bisect_no_piece (fuel : nat) (self : ref) (pt : BaseGeometry)
    (pt1 pt2 directory orth : point) (diameter house_area width dw : float)
    (res : list Polygon) (w : World) (s : Area) (r : Polygon) :
  areas w !! self = Some s ->
  res !! 0%nat = Some r ->
  off_target house_area r = true ->
  ops_split (_polygon s) (cut_line pt1 pt2 directory orth diameter width) = [] ->
  bisect (S (S fuel)) self pt pt1 pt2 directory orth diameter house_area
         width dw res w
  = Raised IndexError w.
Proof.
  intros Hs Hr Hoff Hcut. simpl.
  rewrite (bind_Done _ _ w r w) by (unfold index; by rewrite Hr).
  rewrite Hoff.
  rewrite (bind_Done _ _ w _ w (polygon_Done _ _ _ Hs)).
  rewrite Hcut. reflexivity.
Qed.

(** X13: a cut that leaves the polygon in one piece ends the call too: the
    comparison of line 169 reads [res[1]], which raises [IndexError]. *)
Theorem bisect_one_piece (fuel : nat) (self : ref) (pt : BaseGeometry)
    (pt1 pt2 directory orth : point) (diameter house_area width dw : float)
    (res : list Polygon) (w : World) (s : Area) (r x : Polygon) :
  areas w !! self = Some s ->
  res !! 0%nat = Some r ->
  off_target house_area r = true ->
  ops_split (_polygon s) (cut_line pt1 pt2 directory orth diameter width)
    = [x] ->
  bisect (S fuel) self pt pt1 pt2 directory orth diameter house_area
         width dw res w
  = Raised IndexError w.
Proof.
  intros Hs Hr Hoff Hcut. simpl.
  rewrite (bind_Done _ _ w r w) by (unfold index; by rewrite Hr).
  rewrite Hoff.
  rewrite (bind_Done _ _ w _ w (polygon_Done _ _ _ Hs)).
  rewrite Hcut. reflexivity.
Qed.

(** X14: of a cut that yields more than two pieces only the first two
    count.  Their distances to the hit point decide the order; when they
    are swapped the other pieces are dropped from [res], when they are not
    the other pieces stay in [res] behind them; the loop ends with that
    [res] when its first piece meets the tolerance; and lines 178-183 make
    areas of the first two pieces of [res] and of nothing else. *)
Theorem bisect_more_pieces (fuel : nat) (self : ref) (pt : BaseGeometry)
    (pt1 pt2 directory orth : point) (diameter house_area width dw : float)
    (res : list Polygon) (w : World) (s : Area) (r x y z : Polygon)
    (rest : list Polygon) (inplace : bool) (nc : Category) :
  areas w !! self = Some s ->
  res !! 0%nat = Some r ->
  off_target house_area r = true ->
  ops_split (_polygon s) (cut_line pt1 pt2 directory orth diameter width)
    = x :: y :: z :: rest ->
  let swap := gtb (distance pt x) (distance pt y) in
  let first := if swap then y else x in
  let kept := if swap then [y; x] else x :: y :: z :: rest in
  order_pieces pt (x :: y :: z :: rest) w = Done kept w /\
  (off_target house_area first = false ->
   bisect (S (S fuel)) self pt pt1 pt2 directory orth diameter house_area
          width dw res w
   = Done kept w) /\
  materialize self (x :: y :: z :: rest) inplace nc w
  = if inplace
    then Done None
           (installed self s [length (areas w); S (length (areas w))]
              (constructed y nc (constructed x (_category s) w)))
    else Done (Some (length (areas w), S (length (areas w))))
           (constructed y nc (constructed x (_category s) w)).
Proof.
  intros Hs Hr Hoff Hcut swap first kept.
  assert (order_pieces pt (x :: y :: z :: rest) w = Done kept w) as Horder.
  { unfold order_pieces, mbind, M_bind, index. simpl.
    unfold kept, swap. by destruct (gtb _ _). }
  assert (kept !! 0%nat = Some first) as Hfirst0.
  { unfold kept, first. by destruct swap. }
  split; [exact Horder|]. split.
  - intros Hfirst. simpl.
    rewrite (bind_Done _ _ w r w) by (unfold index; by rewrite Hr).
    rewrite Hoff.
    rewrite (bind_Done _ _ w _ w (polygon_Done _ _ _ Hs)).
    rewrite Hcut. simpl.
    rewrite (bind_Done _ _ w _ w Horder).
    rewrite (bind_Done _ _ w first w) by (unfold index; by rewrite Hfirst0).
    destruct (gtb (area first) house_area);
      rewrite (bind_Done _ _ w first w) by (unfold index; by rewrite Hfirst0);
      by rewrite Hfirst.
  - by rewrite (materialize_eq _ _ _ _ _ _ Hs).
Qed.

Lemma SFcompare_refl (x : spec_float) :
  x <> S754_nan -> SFcompare x x = Some Eq.
Proof.
  destruct x as [s|s| |s m e]; simpl; intros H; try done.
  - by destruct s.
  - rewrite Z.compare_refl, Pos.compare_cont_refl. by destruct s.
Qed.

(** X15: a percentage that is not a number, or that is zero or less, is
    turned away by the assert statement before anything is read or
    written, whatever the area, the reference included. *)
Theorem split_rejects_nan_and_nonpositive (fuel : nat) (self : ref)
    (percentage direction : float) (inplace : option bool)
    (nc : option Category) (w : World) :
  PrimFloat.is_nan percentage = true \/ PrimFloat.leb percentage 0 = true ->
  split fuel self percentage direction inplace nc w = Raised AssertionError w.
Proof.
  intros H.
  assert (gtb percentage 0 = false) as Hp.
  { unfold gtb. rewrite FloatAxioms.ltb_spec. unfold SFltb.
    destruct H as [H|H].
    - unfold PrimFloat.is_nan in H. rewrite FloatAxioms.eqb_spec in H.
      unfold SFeqb in H.
      destruct (Prim2SF percentage) as [s|s| |s m e] eqn:E;
        try (rewrite SFcompare_refl in H by done; discriminate H).
      change (Prim2SF 0) with (S754_zero false). reflexivity.
    - rewrite FloatAxioms.leb_spec in H. unfold SFleb in H.
      destruct (SFcompare (Prim2SF percentage) (Prim2SF 0)) as [c|] eqn:E;
        [|discriminate].
      rewrite (SFcompare_antisym _ _ _ E). by destruct c. }
  unfold split, assert_. by rewrite Hp.
Qed.

Lemma edges_cons (a b : point) (r : list point) :
  edges (a :: b :: r) = (a, b) :: edges (b :: r).
Proof. reflexivity. Qed.

(** X16: the pairs the [for] loop of line 145 goes through are the
    consecutive vertices of the boundary, in order: pair number [i] is made
    of coordinates [i] and [i + 1], and there is one pair less than there
    are coordinates. *)
Theorem edges_consecutive (pts : list point) (i : nat) (a b : point) :
  (edges pts !! i = Some (a, b) <-> pts !! i = Some a /\ pts !! S i = Some b) /\
  length (edges pts) = (length pts - 1)%nat.
Proof.
  revert i. induction pts as [|a0 pts IH]; intros i.
  { split; [|done]. split; [done|]. by intros [? _]. }
  destruct pts as [|b0 r].
  { split; [|done]. split; [done|]. by intros [_ ?]. }
  rewrite edges_cons. destruct (IH i) as [_ Hlen]. split.
  - destruct i as [|i]; simpl.
    + split; [by intros [= -> ->]|by intros [[= ->] [= ->]]].
    + apply (IH i).
  - simpl. rewrite Hlen. simpl. lia.
Qed.

(** X17: which edge line 145-147 settle on.  It is the first pair within
    [1E-6] of the hit point; when no pair is that close it is the last
    pair, silently; and there is none only when the boundary has fewer
    than two coordinates. *)
Theorem find_edge_first_near_or_last (pts : list point) (pt : BaseGeometry) :
  find_edge (edges pts) pt None
  = match list_find (fun e => near pt e = true) (edges pts) with
    | Some (_, e) => Some e
    | None => list.last (edges pts)
    end /\
  (find_edge (edges pts) pt None = None <-> (length pts <= 1)%nat).
Proof.
  assert (forall pairs cur,
            find_edge pairs pt cur
            = match list_find (fun e => near pt e = true) pairs with
              | Some (_, e) => Some e
              | None => match list.last pairs with
                        | Some e => Some e
                        | None => cur
                        end
              end) as Hgen.
  { induction pairs as [|e rest IH]; intros cur; simpl; [done|].
    change (PrimFloat.ltb (LineString_distance e pt) 0x1.0c6f7a0b5ed8dp-20)
      with (near pt e).
    destruct (near pt e) eqn:Hn.
    - by rewrite decide_True.
    - rewrite decide_False by done. rewrite IH.
      destruct (list_find _ rest) as [[j x]|]; simpl; [done|].
      rewrite last_cons. by destruct (list.last rest). }
  assert (find_edge (edges pts) pt None
          = match list_find (fun e => near pt e = true) (edges pts) with
            | Some (_, e) => Some e
            | None => list.last (edges pts)
            end) as Heq.
  { rewrite Hgen. destruct (list_find _ _) as [[j x]|]; [done|].
    by destruct (list.last (edges pts)). }
  split; [exact Heq|].
  rewrite Heq.
  destruct (edges_consecutive pts 0 (0, 0)%float (0, 0)%float) as [_ Hlen].
  split.
  - destruct (list_find _ _) as [[j x]|]; [done|].
    rewrite last_None. intros Hnil. rewrite Hnil in Hlen. simpl in Hlen. lia.
  - intros Hle. assert (edges pts = []) as ->; [|done].
    apply length_zero_iff_nil. lia.
Qed.

(** X18: when the ray does not meet the boundary the call fails with an
    [IndexError], and any exception of the listing other than [ValueError]
    comes out of [split] as it is; in both cases nothing has been written.
    This is for a counter-clockwise polygon and a percentage above 0, [c2]
    and [c0] being the corners read on line 131. *)
Theorem split_crossing_fails (fuel : nat) (self : ref)
    (percentage direction : float) (inplace : option bool)
    (nc : option Category) (w : World) (a : Area) (c2 c0 : point) :
  areas w !! self = Some a ->
  gtb percentage 0 = true ->
  is_ccw (_polygon a) = true ->
  exterior_coords (minimum_rotated_rectangle (_polygon a)) !! 2%nat = Some c2 ->
  exterior_coords (minimum_rotated_rectangle (_polygon a)) !! 0%nat = Some c0 ->
  let crossing :=
    intersection_boundary (ray_of (_polygon a) direction c2 c0) (_polygon a) in
  (py_list crossing = inr [] ->
   split fuel self percentage direction inplace nc w = Raised IndexError w) /\
  (forall e, py_list crossing = inl e -> e <> ValueError ->
   split fuel self percentage direction inplace nc w = Raised e w).
Proof.
  intros Ha Hp Hccw Hc2 Hc0 crossing.
  assert (forall e,
            hit_point (ray_of (_polygon a) direction c2 c0) (_polygon a) w
            = Raised e w ->
            split fuel self percentage direction inplace nc w = Raised e w)
    as Hprop.
  { intros e He. unfold split, assert_. rewrite Hp.
    rewrite (bind_Done _ _ w tt w) by reflexivity.
    apply bind_Raised. unfold split_pieces.
    rewrite (bind_Done _ _ w _ w (polygon_Done _ _ _ Ha)).
    rewrite Hccw. simpl.
    rewrite (bind_Done _ _ w tt w) by reflexivity.
    rewrite (bind_Done _ _ w _ w (polygon_Done _ _ _ Ha)).
    rewrite (bind_Done _ _ w c2 w) by (unfold index; by rewrite Hc2).
    rewrite (bind_Done _ _ w c0 w) by (unfold index; by rewrite Hc0).
    rewrite (bind_Done _ _ w _ w (polygon_Done _ _ _ Ha)).
    rewrite (bind_Done _ _ w _ w (polygon_Done _ _ _ Ha)).
    apply bind_Raised. exact He. }
  split.
  - intros Hl. apply Hprop. unfold hit_point. fold crossing. by rewrite Hl.
  - intros e Hl He. apply Hprop. unfold hit_point. fold crossing.
    rewrite Hl. by destruct e.
Qed.

Lemma components_eq (w : World) (r : ref) (b : Area) (xs : list ref) :
  areas w !! r = Some b ->
  lists w !! _sub_areas b = Some xs ->
  components r w
  = if (0 <? length xs)%nat then Done (_sub_areas b) w else new_list [r] w.
Proof.
  intros Hb Hxs. unfold components, load, load_list, mbind, M_bind.
  rewrite Hb, Hxs. by destruct (0 <? length xs)%nat.
Qed.

(** X19: [components] after a completed in-place [split].  On the area it
    returns, without writing anything, the list of the two new areas; on
    each of the two it returns a new list holding that area alone: the new
    areas have no sub-areas of their own. *)
Theorem split_then_components (fuel : nat) (self : ref)
    (percentage direction : float) (inplace : option bool)
    (nc : option Category) (w w' : World) (a : Area) (v : option (ref * ref)) :
  areas w !! self = Some a ->
  default true inplace = true ->
  split fuel self percentage direction inplace nc w = Done v w' ->
  exists (l : lref) (first second : ref),
    components self w' = Done l w' /\
    lists w' !! l = Some [first; second] /\
    first <> self /\ second <> self /\ first <> second /\
    (exists l1 w1, components first w' = Done l1 w1 /\
                   lists w1 !! l1 = Some [first]) /\
    (exists l2 w2, components second w' = Done l2 w2 /\
                   lists w2 !! l2 = Some [second]).
Proof.
  intros Ha Hin Hs.
  destruct (split_done _ _ _ _ _ _ _ _ _ _ Ha Hs)
    as (r0 & r1 & _ & _ & _ & Hw).
  rewrite Hin in Hw. simpl in Hw. destruct Hw as [_ ->].
  pose proof (lookup_lt_Some _ _ _ Ha) as Hlt.
  set (w1 := constructed r0 (_category a) w).
  set (w2 := constructed r1 (default GARDEN nc) w1).
  set (first := length (areas w)).
  set (w' := installed self a [first; S first] w2).
  assert (lists w' = lists w ++ [[]; []; [first; S first]]) as Hlists.
  { simpl. by rewrite <- !app_assoc. }
  assert (areas w' !! self
          = Some {| _polygon := _polygon a; _category := _category a;
                    _sub_areas := length (lists w2); _id := _id a |}) as Hself.
  { apply installed_self. unfold w2, w1. rewrite !constructed_length. lia. }
  assert (areas w' !! first
          = Some {| _polygon := r0; _category := _category a;
                    _sub_areas := length (lists w);
                    _id := _last_id w + 1 |}) as Hfirst.
  { unfold w'. rewrite installed_other by (unfold first; lia).
    apply constructed_old, constructed_new. }
  assert (areas w' !! S first
          = Some {| _polygon := r1; _category := default GARDEN nc;
                    _sub_areas := length (lists w1);
                    _id := _last_id w1 + 1 |}) as Hsecond.
  { unfold w'. rewrite installed_other by (unfold first; lia).
    unfold first. rewrite <- (constructed_length r0 (_category a) w).
    apply constructed_new. }
  exists (length (lists w2)), first, (S first).
  split.
  { rewrite (components_eq _ _ _ [first; S first] Hself); [done|].
    apply installed_list. }
  split; [apply installed_list|].
  split; [unfold first; lia|]. split; [unfold first; lia|]. split; [lia|].
  split.
  - eexists _, _. split.
    + rewrite (components_eq _ _ _ [] Hfirst); [reflexivity|].
      simpl. rewrite <- !app_assoc.
      by rewrite lookup_app_r, Nat.sub_diag by lia.
    + simpl. by rewrite lookup_app_r, Nat.sub_diag by lia.
  - eexists _, _. split.
    + rewrite (components_eq _ _ _ [] Hsecond); [reflexivity|].
      simpl. rewrite <- !app_assoc.
      rewrite lookup_app_r by (rewrite length_app; simpl; lia).
      by rewrite length_app, Nat.add_1_r, Nat.sub_succ_l, Nat.sub_diag by lia.
    + simpl. by rewrite lookup_app_r, Nat.sub_diag by lia.
Qed.

End SplitMore.


(** ** Printing *)

Section PrintingFacts.
Context `{T : Text}.

Lemma append_assoc (a b c : string) : (a +:+ b) +:+ c = a +:+ (b +:+ c).
Proof.
  induction a as [|x a IH]; [done|].
  change (String x ((a +:+ b) +:+ c) = String x (a +:+ (b +:+ c))).
  by f_equal.
Qed.

Lemma nospace_split (s1 s2 t1 t2 : string) :
  nospace s1 -> nospace s2 ->
  s1 +:+ String Ascii.Space t1 = s2 +:+ String Ascii.Space t2 -> s1 = s2.
Proof.
  revert s2. induction s1 as [|c s1 IH]; intros [|d s2]; try done.
  - intros _ [Hd _] H.
    change (String Ascii.Space t1 = String d (s2 +:+ String Ascii.Space t2)) in H.
    by injection H as <- _.
  - intros [Hc _] _ H.
    change (String c (s1 +:+ String Ascii.Space t1) = String Ascii.Space t2) in H.
    by injection H as -> _.
  - intros [_ H1] [_ H2] H.
    change (String c (s1 +:+ String Ascii.Space t1)
            = String d (s2 +:+ String Ascii.Space t2)) in H.
    injection H as -> H. f_equal. by apply IH.
Qed.

Lemma pretty_N_go_nospace (x : N) (s : string) :
  nospace s -> nospace (pretty_N_go x s).
Proof.
  revert s. induction (N.lt_wf_0 x) as [x _ IH]; intros s Hs.
  assert (x = 0 \/ 0 < x)%N as [->|Hx] by lia.
  - by rewrite pretty_N_go_0.
  - rewrite pretty_N_go_step by done. apply IH.
    { by apply N.div_lt. }
    simpl. split; [|done].
    unfold pretty_N_char. by repeat case_match.
Qed.

Lemma str_int_nospace (z : Z) : nospace (str_int z).
Proof.
  assert (forall x : N, nospace (pretty x)) as HN.
  { intros x. unfold pretty, pretty_N. case_decide; [by simpl|].
    by apply pretty_N_go_nospace. }
  unfold str_int, pretty, pretty_Z. destruct z as [|x|x].
  - by simpl.
  - apply HN.
  - simpl. split; [done|]. apply HN.
Qed.

(** X20: the string of an area tells its id.  Two areas whose [__str__]
    are the same string have the same id, whatever the renderings of
    categories and polygons; in a reachable world they are one area. *)
Theorem str_tells_id (w : World) (r1 r2 : ref) (a b : Area) (s : string) :
  areas w !! r1 = Some a ->
  areas w !! r2 = Some b ->
  __str__ r1 w = Done s w ->
  __str__ r2 w = Done s w ->
  _id a = _id b /\ (reachable w -> r1 = r2).
Proof.
  intros Ha Hb. unfold __str__, load, mbind, M_bind. rewrite Ha, Hb.
  unfold mret, M_ret. intros [= <-] [= Heq].
  assert (_id a = _id b) as Hid.
  { rewrite !append_assoc in Heq. apply (inj (String.app _)) in Heq.
    apply (inj str_int). symmetry.
    eapply nospace_split; [apply str_int_nospace..|exact Heq]. }
  split; [done|]. intros Hreach.
  destruct (reachable_ok w Hreach) as [Hord _ _].
  destruct (Nat.lt_trichotomy r1 r2) as [Hlt|[->|Hgt]]; [|done|].
  - pose proof (Hord _ _ _ _ Hlt Ha Hb). lia.
  - pose proof (Hord _ _ _ _ Hgt Hb Ha). lia.
Qed.

End PrintingFacts.

(** ** More examples, run *)

Module MoreRuns.
Import Plane Examples.
Local Open Scope float_scope.

Lemma Category_value_injective_witness : HOUSE = HOUSE.
Proof. apply (Category_value_injective HOUSE HOUSE). reflexivity. Defined.

Lemma ids_count_from_one_witness :
  (_id garden = Z.of_nat 2 + 1)%Z /\
  (1 <= _id garden <= _last_id world_returned)%Z /\
  _last_id world_returned = Z.of_nat (length (areas world_returned)).
Proof.
  apply (ids_count_from_one world_returned 2%nat garden); [|reflexivity].
  apply (reach_split world_surf 50 0%nat 0.25 0 (Some false) None).
  - apply (reach_init (L:=lib) initial_world rectangle HOUSE None 0%nat).
    + apply reach_initial.
    + intros l Hl. discriminate.
    + vm_compute. reflexivity.
  - vm_compute. reflexivity.
Defined.

Lemma init_keeps_given_list_witness :
  exists (a b : ref) (w1 w2 : World),
    __init__ u_shape PARK (Some 3%nat) world_inplace = Done a w1 /\
    __init__ rectangle FIELD (Some 3%nat) w1 = Done b w2 /\
    a <> b /\
    lists w2 = lists world_inplace /\
    components a w2 = Done 3%nat w2 /\
    components b w2 = Done 3%nat w2.
Proof.
  apply (init_keeps_given_list (L:=lib) world_inplace u_shape rectangle
           PARK FIELD 3%nat [1%nat; 2%nat]); [reflexivity|discriminate].
Defined.

Lemma components_unsplit_fresh_witness :
  exists (l1 l2 : lref) (w1 w2 : World),
    components 0%nat world_surf = Done l1 w1 /\
    components 0%nat w1 = Done l2 w2 /\
    l1 <> l2 /\ l1 <> 0%nat /\ l2 <> 0%nat /\
    lists w2 !! l1 = Some [0%nat] /\
    lists w2 !! l2 = Some [0%nat] /\
    lists w2 !! 0%nat = Some [] /\
    areas w2 = areas world_surf.
Proof.
  apply (components_unsplit_fresh world_surf 0%nat surf); reflexivity.
Defined.

Lemma del_idempotent_witness :
  (1%nat ∉ members world_deleted) /\
  (forall r, r <> 1%nat ->
             (r ∈ members world_deleted <-> r ∈ members world_returned)) /\
  NoDup (members world_deleted) /\
  __del__ 1%nat world_deleted = Done tt world_deleted.
Proof.
  apply (del_idempotent world_returned world_deleted 1%nat).
  - apply (NoDup_seq 0 3).
  - reflexivity.
Defined.

Lemma del_id_not_reused_witness :
  exists a, areas world_park !! 3%nat = Some a /\
            (_id house < _id a)%Z /\
            areas world_park !! 1%nat = Some house.
Proof.
  apply (del_id_not_reused world_returned world_deleted world_park 1%nat
           3%nat u_shape PARK None 1%nat house); try reflexivity.
  apply (reach_split world_surf 50 0%nat 0.25 0 (Some false) None).
  - apply (reach_init (L:=lib) initial_world rectangle HOUSE None 0%nat).
    + apply reach_initial.
    + intros l Hl. discriminate.
    + vm_compute. reflexivity.
  - vm_compute. reflexivity.
Defined.

Lemma split_frame_witness :
  (forall r b, r <> 0%nat -> areas world_surf !! r = Some b ->
               areas world_inplace !! r = Some b) /\
  (forall l xs, lists world_surf !! l = Some xs ->
                lists world_inplace !! l = Some xs) /\
  (exists new, members world_inplace = members world_surf ++ new /\
               (length new <= 2)%nat) /\
  (_last_id world_surf <= _last_id world_inplace <= _last_id world_surf + 2)%Z.
Proof.
  apply (split_frame 50 0%nat 0.25 0 None None world_surf world_inplace).
  vm_compute. reflexivity.
Defined.

Lemma split_failure_witness :
  areas world_lot_failed !! 0%nat = Some lot /\
  (world_lot_failed = world_lot \/
   (IndexError = IndexError /\
    exists r0, off_target (area (_polygon lot) * 0.5) r0 = false /\
               world_lot_failed = constructed r0 (_category lot) world_lot)).
Proof.
  apply (split_failure 50 0%nat 0.5 0 None None world_lot world_lot_failed
           lot IndexError); vm_compute; reflexivity.
Defined.

Lemma split_within_tolerance_fails_witness :
  (forall v w', split 50 0%nat 0.5 0 None None world_lot <> Done v w') /\
  (forall e w', split 50 0%nat 0.5 0 None None world_lot = Raised e w' ->
     w' = world_lot \/
     (e = IndexError /\
      w' = constructed (_polygon lot) (_category lot) world_lot)).
Proof.
  apply (split_within_tolerance_fails 50 0%nat 0.5 0 None None world_lot lot);
    vm_compute; reflexivity.
Defined.

Lemma bisect_no_piece_witness :
  bisect (L:=lib_no_piece) 2 0%nat hit (20, 40) (0, 40) (-1, 0) (-0, -1)
         diameter 200 (diameter / 2) (diameter / 2) [rectangle] world_no_piece
  = Raised IndexError world_no_piece.
Proof.
  apply (bisect_no_piece (L:=lib_no_piece) 0 0%nat hit (20, 40) (0, 40)
           (-1, 0) (-0, -1) diameter 200 (diameter / 2) (diameter / 2)
           [rectangle] world_no_piece surf_no_piece rectangle);
    vm_compute; reflexivity.
Defined.

Lemma bisect_one_piece_witness :
  bisect (L:=lib) 1 0%nat hit (20, 40) (0, 40) (-1, 0) (-0, -1)
         diameter 200 100 (diameter / 2) [rectangle] world_surf
  = Raised IndexError world_surf.
Proof.
  apply (bisect_one_piece (L:=lib) 0 0%nat hit (20, 40) (0, 40)
           (-1, 0) (-0, -1) diameter 200 100 (diameter / 2)
           [rectangle] world_surf surf rectangle rectangle);
    vm_compute; reflexivity.
Defined.

Lemma bisect_more_pieces_witness :
  order_pieces (L:=lib_u_cut) top_left [u_base; u_left; u_right] world_u
  = Done [u_left; u_base] world_u /\
  bisect (L:=lib_u_cut) 2 0%nat top_left (0, 0) (0, 0) (0, 0) (0, 0) 0 100
         0 0 [u_shape] world_u
  = Done [u_left; u_base] world_u /\
  materialize (L:=lib_u_cut) 0%nat [u_base; u_left; u_right] true GARDEN
              world_u
  = Done None
      (installed 0%nat lot_u [1%nat; 2%nat]
         (constructed (L:=lib_u_cut) u_left GARDEN
            (constructed (L:=lib_u_cut) u_base FIELD world_u))).
Proof.
  destruct (bisect_more_pieces (L:=lib_u_cut) 0 0%nat top_left (0, 0) (0, 0)
              (0, 0) (0, 0) 0 100 0 0 [u_shape] world_u lot_u u_shape
              u_base u_left u_right [] true GARDEN)
    as (H1 & H2 & H3); [vm_compute; reflexivity..|].
  split; [exact H1|]. split; [|exact H3].
  apply H2. vm_compute. reflexivity.
Defined.

Lemma split_rejects_nan_and_nonpositive_witness :
  split 50 0%nat nan 0 None None world_surf = Raised AssertionError world_surf.
Proof.
  apply (split_rejects_nan_and_nonpositive 50 0%nat nan 0 None None world_surf).
  left. reflexivity.
Defined.

Lemma split_crossing_fails_witness :
  split 50 0%nat 0.25 nan None None world_surf = Raised IndexError world_surf.
Proof.
  refine (proj1 (split_crossing_fails 50 0%nat 0.25 nan None None world_surf
                   surf (20, 40) (0, 0) _ _ _ _ _) _);
    vm_compute; reflexivity.
Defined.

Lemma split_then_components_witness :
  exists (l : lref) (first second : ref),
    components 0%nat world_inplace = Done l world_inplace /\
    lists world_inplace !! l = Some [first; second] /\
    first <> 0%nat /\ second <> 0%nat /\ first <> second /\
    (exists l1 w1, components first world_inplace = Done l1 w1 /\
                   lists w1 !! l1 = Some [first]) /\
    (exists l2 w2, components second world_inplace = Done l2 w2 /\
                   lists w2 !! l2 = Some [second]).
Proof.
  apply (split_then_components 50 0%nat 0.25 0 None None world_surf
           world_inplace surf None); vm_compute; reflexivity.
Defined.

Lemma str_tells_id_witness :
  _id house = _id house /\ (reachable world_returned -> 1%nat = 1%nat).
Proof.
  apply (str_tells_id world_returned 1%nat 1%nat house house house_str);
    vm_compute; reflexivity.
Defined.

End MoreRuns.
